(* ===== verification/_CoqProject ===== *)
-Q . S2P
Prelude.v
Config.v
Events.v
Startup.v
SignalLoop.v
Gungnir.v
Lifecycle.v
Channels.v
