(* ===== verification/Prelude.v ===== *)
(** * Verification of gungnir's process entry point (src/main.go)

    ** The program

    gungnir is a read-only HTTP service.  The only file of the repository is
    [src/main.go]; it holds the process orchestrator:

    - the constants and the [Config] struct (lines 41-51);
    - [gungnir(arguments)] (lines 53-164), which runs, in this order: the
      library initialisation, flag parsing, the [--version] short cut, the
      check of the initialisation error, a second check of the same error
      (the "validator" stage, whose call is commented out), the unmarshalling
      of the configuration, the database connection, the construction of the
      two retrying getters, of the authorisation decorator, of the handler
      chain and of the single route, the start of the servers, the signal
      loop, and the shutdown ([close(shutdown)], [waitGroup.Wait()]);
    - [main] (lines 166-168), which exits with the code [gungnir] returns.

    Everything else (pflag, viper, mux, alice, the codex [db] package, the
    webpa-common server, logging and concurrency helpers) is imported: the
    source only calls it.

    ** The files, in dependency order

    - [Prelude] (this file): the early-exit writer monad [Run] in which the
      straight-line stages are written ([emit], [exit_with], bind), its
      laws, the predicates on traces ([count], [precedes], [final]) with
      their executable checks and [Decision] instances, the hint databases
      [run] and [trace] and the tactics the component files share.
    - [Config]: the constants of lines 41-44, the [Config] struct of lines
      47-51 with its zero value [new_Config], and the values lines 110-131
      build: the retrying getters ([CreateRetryHGService] and
      [CreateRetryTGService], which build values of two different types),
      [authHandler], [bookkeeper], the chain [gungnirHandler], [App] and
      the route table [router].
    - [Events]: Go [error] values, [os.Signal] values as signal numbers
      ([os_Interrupt] is number 2, [os_Kill] number 9), and the observable
      events of a run: writes to stdout and stderr, log records, calls of
      imported functions ([Event], [Call]); the classes of events the
      theorems speak about.
    - [Startup]: the class [Externals] (the results of the imported
      functions [gungnir] branches on), one definition per block of lines
      54-143 ([stage_initialize] ... [stage_up]), composed in [startup] as
      the code composes them; the decision table of start-up ([outcome],
      [exit_code], [stderr_text], [calls_made], [expected_trace]) and the
      proof [startup_table] that [startup] implements it.
    - [SignalLoop]: the cases of the [select] of lines 147-158
      ([case_signal], [case_done], [select_stmt]) and the [for] loop of
      lines 146-159 ([signal_loop]) over the sequence of cases taken.
    - [Gungnir]: the whole of [gungnir] and [main] over a [Script] of what
      the environment does; the status of a run ([Exited], [BlockedInSelect],
      [BlockedInWait]); the same behaviour as a machine that takes one
      input at a time ([proc_step], [proc_run]); the equivalence of scripts
      that no run can tell apart ([observed]), for which [gungnir] is
      [Proper].
    - [Lifecycle]: the state machine Starting, Running, ShuttingDown,
      Stopped of the specification, as a step relation on phases
      ([phase_step]) that simulates [proc_step], and as moves labelled
      with the events they must show ([edge], [path]).
    - [Channels]: the buffered channel [signals] (capacity 10, filled by
      sends that do not block), the channels [done] and [shutdown] and the
      counter [waitGroup], with the main goroutine, the runtime and the
      servers interleaved: [act] computes a move, [step] gives the moves as
      rules, [run] follows a schedule, [reachable] and [world_inv] are the
      reachable states and their invariant.

    ** How the model corresponds to the code

    State.  The Go function keeps its state in local variables.  The model
    keeps the ones later stages read: the initialisation error [err], the
    unmarshalled [Config], the database handle, the two getters, the route
    table ([Started]).  An early [return n] is [exit_with n]; falling
    through is the bind of the monad.  Output is a list of [Event]s in
    program order.

    Environment.  Results of imported functions are fields of the class
    [Externals]; theorems quantify over every instance, witnesses use the
    instances [demo_env].  What the environment does while the process runs
    is, from the coarsest to the finest: a [Script] (the case each [select]
    takes, whether [Wait] returns) in [Gungnir]; a list of [Input]s for the
    machine; a schedule of [Action]s of all goroutines in [Channels].
    [machine_refines_gungnir] and [world_refines_machine] connect the three.

    Integers.  Exit codes, [GetRetries] (Go [int]) and [RetryInterval]
    ([time.Duration], an [int64] of nanoseconds) are [Z]; [main.go] performs
    no arithmetic on them, so no wrap-around arises in the modelled code
    and no range is assumed of what [v.Unmarshal] stores.  Signal numbers
    are [positive]; the capacity of [signals] and the counter of
    [waitGroup] are [nat].

    Atomicity.  In [Channels] a move of the main goroutine runs from one
    blocking point to the next.  Between the assignment [exit = true] and
    the call of [Wait] the main goroutine reads nothing another goroutine
    writes, so taking lines 153-162 as one move loses no interleaving that
    could be observed.

    ** What the theorems show

    - [Startup]: the exit code and the exact output of every branch; the
      second error check can never fire; the version flag wins over an
      initialisation error; the error of [Unmarshal] is dropped; the
      database is contacted only after parsing and initialisation
      succeeded; a line on stderr is the last event and the code is then
      not 0; the code is 2 exactly for a database failure; the getters, the
      decorator chain and the route handed to the servers are the ones of
      lines 110-131, spelled out.
    - [SignalLoop]: only [os.Interrupt], [os.Kill] and [done] end the loop;
      every other signal is logged and ignored; the loop stops at the first
      terminating case and consumes nothing after it; with no terminating
      case it stays blocked (it never returns by itself).
    - [Gungnir]: [close(shutdown)] is executed at most once, exactly in
      the runs that reached the loop and left it, and always before
      [Wait]; a run that was started exits with 0 or does not exit; what is
      delivered after the first terminating case is never observed; the
      machine and the function agree.
    - [Lifecycle]: every run of the machine is a path of the four-phase
      state machine; the events of every run of [gungnir] are the labels
      of such a path: servers started and channel installed before
      [Running], one Error record, [close(shutdown)] and [Wait] on leaving
      it, a line on standard error before stopping with a code other than
      0.
    - [Channels]: under every schedule the channel holds at most 10
      signals, [shutdown] is never closed twice (no move panics), the
      process exits only once every server has finished; schedules refine
      the machine; a signal delivered to a full channel is lost; a pending
      interrupt is served in arrival order; once the servers have returned
      the process exits.

    ** Bounds and fuel

    No definition uses fuel.  The loop is structurally recursive on the
    sequence of [select] cases, the machine on its inputs, a schedule on its
    moves.  A sequence that ends before a terminating case models a process
    still blocked in [select], which is reported as a status
    ([BlockedInSelect]) and never as a result; theorems that say the
    process exits ([graceful_shutdown], [shutdown_completes]) exhibit the
    inputs under which it does.

    ** Not modelled

    The bodies of imported functions (flag parsing, configuration loading,
    the HTTP router, the database driver, the middleware).  They appear as
    [Externals] fields or as call events.  The retry decorators behind
    [db.CreateRetryHGService] and the request handler [handleGetAll] are in
    packages and files that are not part of [src/]; [main.go] only
    constructs and registers them, which is what [Config] and
    [stage_handlers] model.  Signals that arrive before line 145 have
    their default disposition and are outside the model. *)

From Stdlib Require Import Ascii String ZArith Lia.
From stdpp Require Import base tactics option list strings.

(** ** Text *)

(** The line feed that ends Go's ["...\n"] format strings. *)
Definition nl : string := String "010"%char EmptyString.

(** ** The early-exit writer monad

    A computation emits events and then either leaves the enclosing
    function with a value of [X] (Go's [return n] in the middle of a
    function) or yields a value of [A] to the statements that follow. *)

Record Run (Ev X A : Type) : Type := MkRun {
  trace : list Ev;
  result : X + A
}.

Arguments MkRun {Ev X A} _ _.
Arguments trace {Ev X A} _.
Arguments result {Ev X A} _.

Definition emit {Ev X : Type} (e : Ev) : Run Ev X unit :=
  MkRun [e] (inr tt).

Definition exit_with {Ev X A : Type} (x : X) : Run Ev X A :=
  MkRun [] (inl x).

Definition run_bind {Ev X A B : Type}
    (k : A → Run Ev X B) (m : Run Ev X A) : Run Ev X B :=
  match result m with
  | inl x => MkRun (trace m) (inl x)
  | inr a => MkRun (trace m ++ trace (k a)) (result (k a))
  end.

#[export] Instance run_mret {Ev X : Type} : MRet (Run Ev X) :=
  λ A a, MkRun [] (inr a).

#[export] Instance run_mbind {Ev X : Type} : MBind (Run Ev X) :=
  λ A B k m, run_bind k m.

(** [exited m] is the value the function returned early with, if it did. *)
Definition exited {Ev X A : Type} (m : Run Ev X A) : option X :=
  match result m with inl x => Some x | inr _ => None end.

(** [yielded m] is the value handed to the rest of the function. *)
Definition yielded {Ev X A : Type} (m : Run Ev X A) : option A :=
  match result m with inl _ => None | inr a => Some a end.

(** ** Predicates on traces *)

(** [count P t]: how many events of [t] satisfy [P]. *)
Definition count {Ev : Type} (P : Ev → Prop) `{!∀ e, Decision (P e)}
    (t : list Ev) : nat :=
  length (filter P t).

(** [precedes P Q t]: every [Q]-event of [t] comes after some [P]-event. *)
Definition precedes {Ev : Type} (P Q : Ev → Prop) (t : list Ev) : Prop :=
  ∀ t1 e t2, t = t1 ++ e :: t2 → Q e → Exists P t1.

(** The executable form of [precedes]: one pass that remembers whether a
    [P]-event was seen. *)
Fixpoint precedes_from {Ev : Type} (P Q : Ev → Prop)
    `{!∀ e, Decision (P e)} `{!∀ e, Decision (Q e)}
    (seen : bool) (t : list Ev) : bool :=
  match t with
  | [] => true
  | e :: t' =>
      (if decide (Q e) then seen else true)
      && precedes_from P Q (seen || bool_decide (P e)) t'
  end.

(** [final P t]: a [P]-event can only be the last event of [t]. *)
Definition final {Ev : Type} (P : Ev → Prop) (t : list Ev) : Prop :=
  ∀ t1 e t2, t = t1 ++ e :: t2 → P e → t2 = [].

(** The executable form of [final]. *)
Fixpoint final_check {Ev : Type} (P : Ev → Prop) `{!∀ e, Decision (P e)}
    (t : list Ev) : bool :=
  match t with
  | [] => true
  | e :: t' =>
      (if decide (P e) then bool_decide (t' = @nil Ev) else true)
      && final_check P t'
  end.

(** ** Hint databases and tactics *)

(** [run]: rewriting with the monad's equations. [trace]: facts on [count]
    and [precedes]. *)
Create Rewrite HintDb run.
Create Rewrite HintDb trace.
Create HintDb trace discriminated.

(** [invert H]: invert and clean up, for rule inductions. *)
Ltac invert H := inversion H; subst; clear H.

(** [run_simpl]: normalise monadic code by the monad's equations. *)
Ltac run_simpl := repeat (progress (autorewrite with run in * || simpl in * )).

(** [run_eval]: evaluate the monad's operations, and nothing else, so that
    strings and external results stay as they are written. *)
Ltac run_eval :=
  cbv [mbind mret run_mbind run_mret run_bind emit exit_with trace result
       exited yielded].

(** [case_result m]: case analysis on how [m] ended, keeping the equation. *)
Ltac case_result m :=
  let x := fresh "x" in let a := fresh "a" in let E := fresh "E" in
  destruct (result m) as [x|a] eqn:E.

(** ** Laws of the monad *)

Section run_laws.
Context {Ev X : Type}.
Implicit Types (e : Ev) (x : X).

Lemma run_eta {A} (m : Run Ev X A) : MkRun (trace m) (result m) = m.
Proof. by destruct m. Qed.

Lemma run_ext {A} (m1 m2 : Run Ev X A) :
  trace m1 = trace m2 → result m1 = result m2 → m1 = m2.
Proof. destruct m1, m2; simpl; congruence. Qed.

Lemma run_ret_bind {A B} (a : A) (k : A → Run Ev X B) :
  mret a ≫= k = k a.
Proof. unfold mbind, run_mbind, run_bind; simpl. apply run_eta. Qed.

Lemma run_bind_ret {A} (m : Run Ev X A) : m ≫= mret = m.
Proof.
  unfold mbind, run_mbind, run_bind. destruct m as [t [x|a]]; simpl; [done|].
  by rewrite app_nil_r.
Qed.

Lemma run_bind_assoc {A B C} (m : Run Ev X A)
    (k : A → Run Ev X B) (h : B → Run Ev X C) :
  (m ≫= k) ≫= h = m ≫= (λ a, k a ≫= h).
Proof.
  unfold mbind, run_mbind, run_bind. destruct m as [t [x|a]]; simpl; [done|].
  destruct (k a) as [t' [x|b]]; simpl; [done|]. by rewrite app_assoc.
Qed.

Lemma run_exit_bind {A B} x (k : A → Run Ev X B) :
  exit_with x ≫= k = exit_with x.
Proof. done. Qed.

Lemma run_emit_bind {B} e (k : unit → Run Ev X B) :
  emit e ≫= k = MkRun (e :: trace (k tt)) (result (k tt)).
Proof. done. Qed.

Lemma trace_bind_exit {A B} (m : Run Ev X A) (k : A → Run Ev X B) x :
  result m = inl x → m ≫= k = MkRun (trace m) (inl x).
Proof. intros E. unfold mbind, run_mbind, run_bind. by rewrite E. Qed.

Lemma trace_bind_value {A B} (m : Run Ev X A) (k : A → Run Ev X B) a :
  result m = inr a →
  m ≫= k = MkRun (trace m ++ trace (k a)) (result (k a)).
Proof. intros E. unfold mbind, run_mbind, run_bind. by rewrite E. Qed.

(** Whatever follows, the events of [m] stay at the front. *)
Lemma trace_bind_prefix {A B} (m : Run Ev X A) (k : A → Run Ev X B) :
  trace m `prefix_of` trace (m ≫= k).
Proof.
  unfold mbind, run_mbind, run_bind. destruct (result m); simpl.
  - done.
  - by apply prefix_app_r.
Qed.

Lemma exited_bind {A B} (m : Run Ev X A) (k : A → Run Ev X B) :
  exited (m ≫= k) =
  match result m with inl x => Some x | inr a => exited (k a) end.
Proof. unfold mbind, run_mbind, run_bind, exited. by destruct (result m). Qed.

Lemma yielded_bind {A B} (m : Run Ev X A) (k : A → Run Ev X B) :
  yielded (m ≫= k) = yielded m ≫= (λ a, yielded (k a)).
Proof. unfold mbind at 1, run_mbind, run_bind, yielded. by destruct (result m). Qed.

Lemma exited_yielded {A} (m : Run Ev X A) :
  exited m = None ↔ is_Some (yielded m).
Proof.
  unfold exited, yielded. by destruct (result m); split.
Qed.

End run_laws.

#[export] Hint Rewrite @run_ret_bind @run_bind_ret @run_bind_assoc
  @run_exit_bind @run_emit_bind : run.

(** ** Facts on [count] and [precedes] *)

Section trace_facts.
Context {Ev : Type} (P Q : Ev → Prop).
Context {Pdec : ∀ e, Decision (P e)} {Qdec : ∀ e, Decision (Q e)}.
Implicit Types (t : list Ev) (e : Ev).

Lemma count_nil : count P [] = 0%nat.
Proof. done. Qed.

Lemma count_cons e t :
  count P (e :: t) = ((if decide (P e) then 1 else 0) + count P t)%nat.
Proof. unfold count. rewrite filter_cons. by destruct (decide (P e)). Qed.

Lemma count_app t1 t2 : count P (t1 ++ t2) = (count P t1 + count P t2)%nat.
Proof. unfold count. by rewrite filter_app, length_app. Qed.

Lemma count_zero t : count P t = 0%nat ↔ Forall (λ e, ¬ P e) t.
Proof.
  induction t as [|e t IH]; [by split; [constructor|]|].
  rewrite count_cons, Forall_cons. destruct (decide (P e)); simpl.
  - split; [lia | tauto].
  - rewrite IH. tauto.
Qed.

Lemma count_pos t : (0 < count P t)%nat ↔ Exists P t.
Proof.
  induction t as [|e t IH]; [rewrite Exists_nil, count_nil; lia|].
  rewrite count_cons, Exists_cons. destruct (decide (P e)); simpl.
  - split; [tauto | lia].
  - rewrite IH. tauto.
Qed.

Lemma precedes_nil : precedes P Q [].
Proof. intros [|??] ?? E; simplify_eq. Qed.

(** After a [P]-event anything may follow. *)
Lemma precedes_after t1 t2 :
  precedes P Q t1 → Exists P t1 → precedes P Q (t1 ++ t2).
Proof.
  intros H1 HP u1 e u2 E He.
  apply app_eq_app in E as [l [[-> E]|[-> E]]].
  - destruct l as [|e' l]; simplify_eq/=.
    + by rewrite app_nil_r in HP.
    + by eapply H1.
  - apply Exists_app. by left.
Qed.

(** Without a [Q]-event there is nothing to precede. *)
Lemma precedes_no_Q t : Forall (λ e, ¬ Q e) t → precedes P Q t.
Proof.
  intros H u1 e u2 -> He. apply Forall_app in H as [_ H].
  apply Forall_cons in H as [H _]. done.
Qed.

(** A prefix without [Q]-events does not matter. *)
Lemma precedes_app_r t1 t2 :
  Forall (λ e, ¬ Q e) t1 → precedes P Q t2 → precedes P Q (t1 ++ t2).
Proof.
  intros H1 H2 u1 e u2 E He.
  apply app_eq_app in E as [l [[-> E]|[-> E]]].
  - destruct l as [|e' l]; simplify_eq/=.
    + pose proof (H2 [] e u2 eq_refl He) as Hnil. by apply Exists_nil in Hnil.
    + by apply Forall_app in H1 as [_ [? _]%Forall_cons].
  - apply Exists_app. right. by apply (H2 l e u2).
Qed.

Lemma precedes_from_true t : precedes_from P Q true t = true.
Proof.
  induction t as [|e t IH]; [done|]. simpl. rewrite IH.
  by destruct (decide (Q e)).
Qed.

Lemma precedes_from_false t :
  precedes_from P Q false t = true ↔ precedes P Q t.
Proof.
  induction t as [|e t IH]; simpl.
  - split; [intros _; apply precedes_nil | done].
  - destruct (decide (Q e)) as [HQ|HQ]; simpl.
    + split; [done|]. intros H. specialize (H [] e t eq_refl HQ).
      by apply Exists_nil in H.
    + destruct (decide (P e)) as [HP|HP].
      * rewrite bool_decide_true, precedes_from_true by done.
        split; [intros _|done]. intros [|e' u1] e'' u2 E He; simplify_eq/=; [done|].
        by apply Exists_cons_hd.
      * rewrite bool_decide_false, IH by done. split.
        -- intros H [|e' u1] e'' u2 E He; simplify_eq/=; [done|].
           apply Exists_cons_tl. by eapply H.
        -- intros H u1 e'' u2 -> He.
           specialize (H (e :: u1) e'' u2 eq_refl He).
           by apply Exists_cons in H as [?|?].
Qed.

#[export] Instance precedes_dec t : Decision (precedes P Q t).
Proof.
  refine (cast_if (decide (precedes_from P Q false t = true)));
    by rewrite <- precedes_from_false.
Defined.

Lemma final_nil : final P [].
Proof. intros [|??] ?? E; simplify_eq. Qed.

Lemma final_cons e t :
  final P (e :: t) ↔ (P e → t = []) ∧ final P t.
Proof.
  split.
  - intros H. split.
    + intros He. by apply (H [] e t).
    + intros t1 e' t2 -> He'. by apply (H (e :: t1) e' t2).
  - intros [H1 H2] [|e0 t1] e' t2 E He'; simplify_eq/=; [by apply H1|].
    by eapply H2.
Qed.

Lemma final_none t : Forall (λ e, ¬ P e) t → final P t.
Proof.
  intros H t1 e t2 -> He. by apply Forall_app in H as [_ [? _]%Forall_cons].
Qed.

(** A trace without [P]-events may end in one. *)
Lemma final_snoc t e : Forall (λ e, ¬ P e) t → final P (t ++ [e]).
Proof.
  induction 1 as [|e' t He' _ IH]; simpl; apply final_cons.
  - split; [done|apply final_nil].
  - split; [done|apply IH].
Qed.

Lemma final_check_spec t : final_check P t = true ↔ final P t.
Proof.
  induction t as [|e t IH]; simpl.
  - split; [intros _; apply final_nil | done].
  - rewrite final_cons, andb_true_iff, IH.
    destruct (decide (P e)) as [He|He].
    + rewrite bool_decide_eq_true. tauto.
    + tauto.
Qed.

#[export] Instance final_dec t : Decision (final P t).
Proof.
  refine (cast_if (decide (final_check P t = true)));
    by rewrite <- final_check_spec.
Defined.

End trace_facts.

#[export] Hint Rewrite @count_nil @count_cons @count_app : trace.
#[export] Hint Resolve precedes_nil precedes_no_Q precedes_after : trace.
