(* ===== verification/Config.v ===== *)
(** * Constants, configuration and the values built at start-up

    The constants of [src/main.go] lines 41-45, the [Config] struct of lines
    47-51 with its zero value ([new(Config)], line 85), and the plain data
    [gungnir] constructs between lines 110 and 131: the two retrying
    getters (values of two different types), the authorisation handler,
    the decorator chain, the [App] and the route. *)

From Stdlib Require Import Ascii String ZArith Lia.
From stdpp Require Import base tactics option list strings.
From S2P Require Import Prelude.

#[local] Open Scope string_scope.
#[local] Open Scope list_scope.

(** ** Constants (lines 41-45) *)

Definition applicationName : string := "gungnir".
Definition apiBase : string := "/api/v1".
Definition DEFAULT_KEY_ID : string := "current".
Definition applicationVersion : string := "0.0.0".

(** ** Integers and handles

    [GetRetries] is a Go [int] and [RetryInterval] a [time.Duration], an
    [int64] count of nanoseconds.  [main.go] copies them and performs no
    arithmetic on them, so they are kept as [Z]. *)
Definition Duration : Type := Z.
Bind Scope Z_scope with Duration.

(** The logger [server.Initialize] returns (line 56).  [main.go] passes it
    on and logs through it; it is a handle with no content of its own. *)
Variant log_Logger : Type := logger.

#[export] Instance log_Logger_eq_dec : EqDecision log_Logger.
Proof. solve_decision. Defined.

(** ** [db.Config]

    The struct is declared in the imported package [codex/db]; [main.go]
    only copies it out of [Config] and hands it to [db.CreateDbConnection].
    It is kept as the list of connection parameters it carries. *)
Record db_Config : Type := Mk_db_Config {
  db_params : list (string * string)
}.

#[export] Instance db_Config_eq_dec : EqDecision db_Config.
Proof. solve_decision. Defined.

(** ** [Config] (lines 47-51) *)
Record Config : Type := MkConfig {
  Db : db_Config;
  GetRetries : Z;
  RetryInterval : Duration
}.

#[export] Instance Config_eq_dec : EqDecision Config.
Proof. solve_decision. Defined.

(** [new(Config)] (line 85): every field has its zero value. *)
Definition new_Config : Config :=
  {| Db := {| db_params := [] |}; GetRetries := 0; RetryInterval := 0 |}.

(** ** The retrying getters (lines 110-111)

    [db.CreateRetryHGService(database, config.GetRetries,
    config.RetryInterval)] wraps the database handle as a getter of
    history records, [db.CreateRetryTGService] as a getter of tombstones,
    each with a retry count and an interval.  The two services are values
    of different types: one cannot stand where the other is expected.
    Each value records what its constructor was given. *)
Record RetryHGService (DB : Type) : Type := MkRetryHGService {
  hg_database : DB;
  hg_retries : Z;
  hg_interval : Duration
}.

Record RetryTGService (DB : Type) : Type := MkRetryTGService {
  tg_database : DB;
  tg_retries : Z;
  tg_interval : Duration
}.

Arguments MkRetryHGService {DB} _ _ _.
Arguments hg_database {DB} _.
Arguments hg_retries {DB} _.
Arguments hg_interval {DB} _.
Arguments MkRetryTGService {DB} _ _ _.
Arguments tg_database {DB} _.
Arguments tg_retries {DB} _.
Arguments tg_interval {DB} _.

Definition CreateRetryHGService {DB} (database : DB) (retries : Z)
    (interval : Duration) : RetryHGService DB :=
  MkRetryHGService database retries interval.

Definition CreateRetryTGService {DB} (database : DB) (retries : Z)
    (interval : Duration) : RetryTGService DB :=
  MkRetryTGService database retries interval.

(** ** The authorisation handler (lines 113-118)

    The [Validator] field is commented out in the source (line 116), so the
    struct literal leaves it at its zero value, [nil]. *)
Variant secure_Validator : Type := validator_for (keyID : string).

Record AuthorizationHandler : Type := MkAuthorizationHandler {
  HeaderName : string;
  ForbiddenStatusCode : Z;
  Validator : option secure_Validator;
  Logger : log_Logger
}.

Definition authHandler : AuthorizationHandler :=
  {| HeaderName := "Authorization";
     ForbiddenStatusCode := 403;
     Validator := None;
     Logger := logger |}.

(** ** The decorator chain (lines 120-122) *)

(** What [bookkeeping.WithResponses] is told to record. *)
Variant BookkeepingField : Type := Code.

(** A constructor of the [alice] chain. *)
Inductive Constructor : Type :=
  | Decorate (a : AuthorizationHandler)        (* authHandler.Decorate *)
  | Bookkeeper (responses : list BookkeepingField). (* bookkeeping.New(...) *)

(** [bookkeeping.New(bookkeeping.WithResponses(bookkeeping.Code))]. *)
Definition bookkeeper : Constructor := Bookkeeper [Code].

(** [alice.New(authHandler.Decorate, bookkeeper)]: the constructors in the
    order given; the first one is the outermost decorator. *)
Definition gungnirHandler : list Constructor :=
  [Decorate authHandler; bookkeeper].

(** ** The application and its route (lines 123-131) *)

Record App (DB : Type) : Type := MkApp {
  historyGetter : RetryHGService DB;
  tombstoneGetter : RetryTGService DB;
  app_logger : log_Logger
}.

Arguments MkApp {DB} _ _ _.
Arguments historyGetter {DB} _.
Arguments tombstoneGetter {DB} _.
Arguments app_logger {DB} _.

(** The endpoint a route ends in. *)
Variant Endpoint : Type := handleGetAll.

Record Route : Type := MkRoute {
  route_template : string;
  route_chain : list Constructor;
  route_endpoint : Endpoint
}.

(** [apiBase+"/device/{deviceID}"] (line 131). *)
Definition device_template : string := apiBase +:+ "/device/{deviceID}".

(** [router.Handle(apiBase+"/device/{deviceID}",
    gungnirHandler.ThenFunc(app.handleGetAll))] on a new router: the route
    table after line 131.  The second registration (line 132) is commented
    out. *)
Definition router : list Route :=
  [ {| route_template := device_template;
       route_chain := gungnirHandler;
       route_endpoint := handleGetAll |} ].

(** ** Facts *)

Lemma device_template_eq : device_template = "/api/v1/device/{deviceID}".
Proof. reflexivity. Qed.

(** The route table has one entry, and it lies under [apiBase]. *)
Lemma router_under_apiBase r :
  r ∈ router → ∃ rest, route_template r = apiBase +:+ rest.
Proof.
  intros ->%list_elem_of_singleton. by exists "/device/{deviceID}".
Qed.
