(* ===== verification/Events.v ===== *)
(** * Observable events

    What a run of [gungnir] does that its environment can see: text written
    to standard output and standard error, log records, and the calls of
    imported functions that have an effect (reading the configuration,
    opening the database, starting the servers, installing the signal
    channel, closing [shutdown], waiting).  The events of a run are listed
    in program order. *)

From Stdlib Require Import Ascii String ZArith Lia.
From stdpp Require Import base tactics option list strings.
From S2P Require Import Prelude Config.

#[local] Open Scope string_scope.
#[local] Open Scope list_scope.

(** ** Go [error] values

    A non-nil [error] is seen through three observations in [main.go]:
    [err.Error()] (also what the verbs [%s] and [%v] print, lines 63, 73,
    81, 106, 139), the Go-syntax rendering of [%#v] (line 107), and the
    key/value context [emperror.Context(err)] (line 105). *)
Record GoError : Type := MkGoError {
  Error : string;
  GoSyntax : string;
  Context_of : list (string * string)
}.

#[export] Instance GoError_eq_dec : EqDecision GoError.
Proof. solve_decision. Defined.

(** ** [os.Signal] values

    What the runtime sends on [signals] are [syscall.Signal] values, that
    is, signal numbers.  [os.Interrupt] is [syscall.SIGINT], number 2, and
    [os.Kill] is [syscall.SIGKILL], number 9; line 149 compares the number
    received with these two. *)
Record Signal : Type := syscall_Signal { signum : positive }.

Definition os_Interrupt : Signal := syscall_Signal 2.
Definition os_Kill : Signal := syscall_Signal 9.

(** Two of the other signals: hang-up and the termination request. *)
Definition syscall_SIGHUP : Signal := syscall_Signal 1.
Definition syscall_SIGTERM : Signal := syscall_Signal 15.

#[export] Instance Signal_eq_dec : EqDecision Signal.
Proof. solve_decision. Defined.

(** ** Log records *)

(** [logging.Info(logger)] and [logging.Error(logger, ...)]. *)
Variant Level : Type := LevelInfo | LevelError.

(** [logging.MessageKey()], [logging.ErrorKey()], or a literal key. *)
Inductive LogKey : Type :=
  | MessageKey
  | ErrorKey
  | Key (k : string).

Inductive LogVal : Type :=
  | VString (s : string)
  | VDuration (d : Duration)
  | VSignal (s : Signal).

#[export] Instance Level_eq_dec : EqDecision Level.
Proof. solve_decision. Defined.
#[export] Instance LogKey_eq_dec : EqDecision LogKey.
Proof. solve_decision. Defined.
#[export] Instance LogVal_eq_dec : EqDecision LogVal.
Proof. solve_decision. Defined.

(** The key/value pairs of [emperror.Context(err)], as log fields. *)
Definition context_fields (e : GoError) : list (LogKey * LogVal) :=
  (λ kv, (Key kv.1, VString kv.2)) <$> Context_of e.

(** ** Calls with an effect *)
Inductive Call : Type :=
  | Initialize (name : string) (arguments : list string) (* line 58 *)
  | Parse (arguments : list string)                      (* line 62 *)
  | Unmarshal                                            (* line 87 *)
  | CreateDbConnection (dbConfig : db_Config)            (* line 103 *)
  | Prepare (routes : list Route)                        (* line 135 *)
  | Execute                                              (* line 137 *)
  | Notify                                               (* line 145 *)
  | CloseShutdown                                        (* line 161 *)
  | Wait.                                                (* line 162 *)

#[export] Instance secure_Validator_eq_dec : EqDecision secure_Validator.
Proof. solve_decision. Defined.
#[export] Instance AuthorizationHandler_eq_dec : EqDecision AuthorizationHandler.
Proof. solve_decision. Defined.
#[export] Instance BookkeepingField_eq_dec : EqDecision BookkeepingField.
Proof. solve_decision. Defined.
#[export] Instance Constructor_eq_dec : EqDecision Constructor.
Proof. solve_decision. Defined.
#[export] Instance Endpoint_eq_dec : EqDecision Endpoint.
Proof. solve_decision. Defined.
#[export] Instance Route_eq_dec : EqDecision Route.
Proof. solve_decision. Defined.
#[export] Instance Call_eq_dec : EqDecision Call.
Proof. solve_decision. Defined.

(** ** Events *)
Inductive Event : Type :=
  | Stdout (s : string)                              (* fmt.Println *)
  | Stderr (s : string)                              (* fmt.Fprintf(os.Stderr, ...) *)
  | Log (lvl : Level) (keyvals : list (LogKey * LogVal))
  | Called (c : Call).

#[export] Instance Event_eq_dec : EqDecision Event.
Proof. solve_decision. Defined.

(** ** Classes of events *)

Definition is_stdout (e : Event) : Prop :=
  match e with Stdout _ => True | _ => False end.

Definition is_stderr (e : Event) : Prop :=
  match e with Stderr _ => True | _ => False end.

Definition is_log (lvl : Level) (e : Event) : Prop :=
  match e with Log l _ => l = lvl | _ => False end.

Definition is_call (e : Event) : Prop :=
  match e with Called _ => True | _ => False end.

(** [calls c e]: the event is the call [c]. *)
Definition calls (c : Call) (e : Event) : Prop := e = Called c.

(** The event is a call of [db.CreateDbConnection], whatever its argument. *)
Definition is_db_connect (e : Event) : Prop :=
  match e with Called (CreateDbConnection _) => True | _ => False end.

(** The event is a call of [f.Parse]. *)
Definition is_parse (e : Event) : Prop :=
  match e with Called (Parse _) => True | _ => False end.

#[export] Instance is_stdout_dec e : Decision (is_stdout e).
Proof. destruct e; apply _. Defined.
#[export] Instance is_stderr_dec e : Decision (is_stderr e).
Proof. destruct e; apply _. Defined.
#[export] Instance is_log_dec lvl e : Decision (is_log lvl e).
Proof. destruct e; simpl; apply _. Defined.
#[export] Instance is_call_dec e : Decision (is_call e).
Proof. destruct e; apply _. Defined.
#[export] Instance calls_dec c e : Decision (calls c e).
Proof. unfold calls. apply _. Defined.
#[export] Instance is_db_connect_dec e : Decision (is_db_connect e).
Proof. destruct e as [| | |[]]; apply _. Defined.
#[export] Instance is_parse_dec e : Decision (is_parse e).
Proof. destruct e as [| | |[]]; apply _. Defined.

(** The text a run wrote to standard error, in order. *)
Definition stderr_of (t : list Event) : list string :=
  omap (λ e, match e with Stderr s => Some s | _ => None end) t.

(** The text a run wrote to standard output, in order. *)
Definition stdout_of (t : list Event) : list string :=
  omap (λ e, match e with Stdout s => Some s | _ => None end) t.

(** The calls a run made, in order. *)
Definition calls_of (t : list Event) : list Call :=
  omap (λ e, match e with Called c => Some c | _ => None end) t.

(** ** Facts *)

Lemma stderr_of_app t1 t2 : stderr_of (t1 ++ t2) = stderr_of t1 ++ stderr_of t2.
Proof. apply omap_app. Qed.

Lemma stdout_of_app t1 t2 : stdout_of (t1 ++ t2) = stdout_of t1 ++ stdout_of t2.
Proof. apply omap_app. Qed.

Lemma calls_of_app t1 t2 : calls_of (t1 ++ t2) = calls_of t1 ++ calls_of t2.
Proof. apply omap_app. Qed.

(** A call occurs in a trace iff it is among [calls_of]. *)
Lemma calls_of_elem c t : c ∈ calls_of t ↔ Called c ∈ t.
Proof.
  unfold calls_of. rewrite list_elem_of_omap. split.
  - intros (e & He & Hc). destruct e; simplify_eq. done.
  - intros H. by exists (Called c).
Qed.

#[export] Hint Rewrite stderr_of_app stdout_of_app calls_of_app : trace.
