(* ===== verification/Startup.v ===== *)
(** * Start-up: lines 54-143 of [gungnir]

    [Externals] is the interface of the imported functions whose results
    [gungnir] branches on.  Each stage of the function is one definition;
    [startup] composes them in the order of the source.  An early
    [return n] is [Return n]; the variable [err] of line 58 is passed to the
    two stages that read it (lines 72 and 80), because the [err] of line 62
    is a new variable scoped to its [if] statement and does not overwrite
    it.

    The specification is the decision table [outcome]: which stage fails
    first decides the exit code, the text on standard error and the calls
    made.  [startup_table] proves that the composed stages implement the
    table; the theorems of the file follow from it. *)

From Stdlib Require Import Ascii String ZArith Lia.
From stdpp Require Import base tactics option list strings.
From S2P Require Import Prelude Config Events.

#[local] Open Scope string_scope.
#[local] Open Scope list_scope.
#[local] Set Warnings "-clear-no-such-hyp".

(** ** The imported functions *)

(** [f.Parse(arguments)] (line 62) and, when it succeeds, the value of the
    flag registered on line 61, [*printVer]. *)
Inductive ParseResult : Type :=
  | ParseError (err : GoError)
  | Parsed (printVer : bool).

Class Externals : Type := {
  (** the connection [db.CreateDbConnection] returns *)
  Database : Type;
  (** [server.Initialize(applicationName, arguments, f, v)]: its [err] *)
  server_Initialize : string → list string → option GoError;
  (** [f.Parse(arguments)] *)
  flag_Parse : list string → ParseResult;
  (** [v.ConfigFileUsed()] *)
  viper_ConfigFileUsed : string;
  (** [v.Unmarshal(config)]: the struct after the call, and the error *)
  viper_Unmarshal : Config → Config * option GoError;
  (** [db.CreateDbConnection(dbConfig)] *)
  db_CreateDbConnection : db_Config → GoError + Database;
  (** [concurrent.Execute(runnable)]: its [err] *)
  concurrent_Execute : option GoError;
  (** [time.Since(start)] on line 143 *)
  time_Since : Duration
}.

(** ** The process monad *)

(** Events of type [Event], early exit with the function's [int] result. *)
Definition Proc : Type → Type := Run Event Z.

(** [return code] in the middle of [gungnir]. *)
Definition Return {A : Type} (code : Z) : Proc A := exit_with code.

(** What [gungnir] holds once the servers run. *)
Record Started (DB : Type) : Type := MkStarted {
  st_config : Config;
  st_database : DB;
  st_app : App DB;
  st_router : list Route
}.

Arguments MkStarted {DB} _ _ _ _.
Arguments st_config {DB} _.
Arguments st_database {DB} _.
Arguments st_app {DB} _.
Arguments st_router {DB} _.

Section startup.
Context `{ext : Externals}.

(** ** The stages *)

(** Lines 56-59: [server.Initialize]; its [err] is kept for later. *)
Definition stage_initialize (arguments : list string)
    : Proc (option GoError) :=
  emit (Called (Initialize applicationName arguments)) ;;
  mret (server_Initialize applicationName arguments).

(** Lines 61-65: register [--version], parse, leave with 1 on an error. *)
Definition stage_parse (arguments : list string) : Proc bool :=
  emit (Called (Parse arguments)) ;;
  match flag_Parse arguments with
  | ParseError err =>
      emit (Stderr ("Failed to parse arguments: " +:+ Error err +:+ nl)) ;;
      Return 1
  | Parsed printVer => mret printVer
  end.

(** Lines 67-70: print the version and leave with 0. *)
Definition stage_version (printVer : bool) : Proc unit :=
  if printVer then
    emit (Stdout (applicationVersion +:+ nl)) ;;
    Return 0
  else mret tt.

(** Lines 72-76: the error of [server.Initialize], then the log record. *)
Definition stage_check_initialize (err : option GoError) : Proc unit :=
  match err with
  | Some e =>
      emit (Stderr ("Unable to initialize viper: " +:+ Error e +:+ nl)) ;;
      Return 1
  | None => mret tt
  end ;;
  emit (Log LevelInfo
          [ (MessageKey, VString "Successfully loaded config file");
            (Key "configurationFile", VString viper_ConfigFileUsed) ]).

(** Lines 78-83: the same [err] is tested again; the call that would have
    assigned it (line 79) is commented out. *)
Definition stage_validator (err : option GoError) : Proc unit :=
  match err with
  | Some e =>
      emit (Stderr ("Validator error: " +:+ Error e +:+ nl)) ;;
      Return 1
  | None => mret tt
  end.

(** Lines 85-88: [new(Config)], [v.Unmarshal(config)] with its error
    dropped. *)
Definition stage_config : Proc Config :=
  emit (Called Unmarshal) ;;
  mret (viper_Unmarshal new_Config).1.

(** Lines 103-109: connect to the database, leave with 2 on an error. *)
Definition stage_database (dbConfig : db_Config) : Proc Database :=
  emit (Called (CreateDbConnection dbConfig)) ;;
  match db_CreateDbConnection dbConfig with
  | inl err =>
      emit (Log LevelError
              (context_fields err ++
               [ (MessageKey, VString "Failed to initialize database connection");
                 (ErrorKey, VString (Error err)) ])) ;;
      emit (Stderr ("Database Initialize Failed: " +:+ GoSyntax err +:+ nl)) ;;
      Return 2
  | inr database => mret database
  end.

(** Lines 110-131: the getters, the application and the route table. *)
Definition stage_handlers (config : Config) (database : Database)
    : App Database * list Route :=
  let hg := CreateRetryHGService database (GetRetries config) (RetryInterval config) in
  let tg := CreateRetryTGService database (GetRetries config) (RetryInterval config) in
  let app := {| historyGetter := hg; tombstoneGetter := tg;
                app_logger := logger |} in
  (app, router).

(** Lines 134-141: prepare and start the servers, leave with 1 on an
    error. *)
Definition stage_execute (routes : list Route) : Proc unit :=
  emit (Called (Prepare routes)) ;;
  emit (Called Execute) ;;
  match concurrent_Execute with
  | Some err =>
      emit (Stderr ("Unable to start device manager: " +:+ Error err +:+ nl)) ;;
      Return 1
  | None => mret tt
  end.

(** Line 143. *)
Definition stage_up : Proc unit :=
  emit (Log LevelInfo
          [ (MessageKey, VString (applicationName +:+ " is up and running!"));
            (Key "elapsedTime", VDuration time_Since) ]).

(** Lines 54-143, in the order of the source. *)
Definition startup (arguments : list string) : Proc (Started Database) :=
  err ← stage_initialize arguments;
  printVer ← stage_parse arguments;
  stage_version printVer ;;
  stage_check_initialize err ;;
  stage_validator err ;;
  config ← stage_config;
  let dbConfig := Db config in
  database ← stage_database dbConfig;
  let '(app, routes) := stage_handlers config database in
  stage_execute routes ;;
  stage_up ;;
  mret {| st_config := config; st_database := database;
          st_app := app; st_router := routes |}.

(** [startup] with lines 78-83 deleted. *)
Definition startup_no_validator (arguments : list string)
    : Proc (Started Database) :=
  err ← stage_initialize arguments;
  printVer ← stage_parse arguments;
  stage_version printVer ;;
  stage_check_initialize err ;;
  config ← stage_config;
  let dbConfig := Db config in
  database ← stage_database dbConfig;
  let '(app, routes) := stage_handlers config database in
  stage_execute routes ;;
  stage_up ;;
  mret {| st_config := config; st_database := database;
          st_app := app; st_router := routes |}.

(** ** The specification: which stage fails first *)

Inductive Outcome : Type :=
  | ParseFailure (err : GoError)
  | VersionQuery
  | InitializeFailure (err : GoError)
  | DatabaseFailure (err : GoError)
  | ExecuteFailure (err : GoError)
  | Up (st : Started Database).

(** The configuration the process runs with. *)
Definition loaded_config : Config := (viper_Unmarshal new_Config).1.

(** The state of a process that came up with connection [database]. *)
Definition up_state (database : Database) : Started Database :=
  {| st_config := loaded_config;
     st_database := database;
     st_app :=
       {| historyGetter :=
            MkRetryHGService database (GetRetries loaded_config)
                             (RetryInterval loaded_config);
          tombstoneGetter :=
            MkRetryTGService database (GetRetries loaded_config)
                             (RetryInterval loaded_config);
          app_logger := logger |};
     st_router := router |}.

Definition outcome (arguments : list string) : Outcome :=
  match flag_Parse arguments with
  | ParseError err => ParseFailure err
  | Parsed true => VersionQuery
  | Parsed false =>
      match server_Initialize applicationName arguments with
      | Some err => InitializeFailure err
      | None =>
          match db_CreateDbConnection (Db loaded_config) with
          | inl err => DatabaseFailure err
          | inr database =>
              match concurrent_Execute with
              | Some err => ExecuteFailure err
              | None => Up (up_state database)
              end
          end
      end
  end.

(** The exit codes of the command-line interface. *)
Definition exit_code (o : Outcome) : option Z :=
  match o with
  | ParseFailure _ => Some 1%Z
  | VersionQuery => Some 0%Z
  | InitializeFailure _ => Some 1%Z
  | DatabaseFailure _ => Some 2%Z
  | ExecuteFailure _ => Some 1%Z
  | Up _ => None
  end.

(** What is written to standard error. *)
Definition stderr_text (o : Outcome) : list string :=
  match o with
  | ParseFailure err => ["Failed to parse arguments: " +:+ Error err +:+ nl]
  | VersionQuery => []
  | InitializeFailure err => ["Unable to initialize viper: " +:+ Error err +:+ nl]
  | DatabaseFailure err => ["Database Initialize Failed: " +:+ GoSyntax err +:+ nl]
  | ExecuteFailure err => ["Unable to start device manager: " +:+ Error err +:+ nl]
  | Up _ => []
  end.

(** The calls made, by outcome. *)
Definition calls_made (arguments : list string) (o : Outcome) : list Call :=
  [Initialize applicationName arguments; Parse arguments] ++
  match o with
  | ParseFailure _ | VersionQuery | InitializeFailure _ => []
  | DatabaseFailure _ => [Unmarshal; CreateDbConnection (Db loaded_config)]
  | ExecuteFailure _ | Up _ =>
      [Unmarshal; CreateDbConnection (Db loaded_config); Prepare router; Execute]
  end.

(** The log record of line 76. *)
Definition log_loaded : Event :=
  Log LevelInfo
    [ (MessageKey, VString "Successfully loaded config file");
      (Key "configurationFile", VString viper_ConfigFileUsed) ].

(** The log record of line 143. *)
Definition log_up : Event :=
  Log LevelInfo
    [ (MessageKey, VString "gungnir is up and running!");
      (Key "elapsedTime", VDuration time_Since) ].

(** The log record of lines 105-106. *)
Definition log_db_failed (err : GoError) : Event :=
  Log LevelError
    (context_fields err ++
     [ (MessageKey, VString "Failed to initialize database connection");
       (ErrorKey, VString (Error err)) ]).

(** Every event of a run that ended with outcome [o], in order. *)
Definition expected_trace (arguments : list string) (o : Outcome)
    : list Event :=
  [Called (Initialize applicationName arguments); Called (Parse arguments)] ++
  match o with
  | ParseFailure err =>
      [Stderr ("Failed to parse arguments: " +:+ Error err +:+ nl)]
  | VersionQuery => [Stdout ("0.0.0" +:+ nl)]
  | InitializeFailure err =>
      [Stderr ("Unable to initialize viper: " +:+ Error err +:+ nl)]
  | DatabaseFailure err =>
      [ log_loaded; Called Unmarshal;
        Called (CreateDbConnection (Db loaded_config));
        log_db_failed err;
        Stderr ("Database Initialize Failed: " +:+ GoSyntax err +:+ nl) ]
  | ExecuteFailure err =>
      [ log_loaded; Called Unmarshal;
        Called (CreateDbConnection (Db loaded_config));
        Called (Prepare router); Called Execute;
        Stderr ("Unable to start device manager: " +:+ Error err +:+ nl) ]
  | Up _ =>
      [ log_loaded; Called Unmarshal;
        Called (CreateDbConnection (Db loaded_config));
        Called (Prepare router); Called Execute; log_up ]
  end.

(** How the function is left. *)
Definition expected_result (o : Outcome) : Z + Started Database :=
  match o with
  | Up st => inr st
  | ParseFailure _ | InitializeFailure _ | ExecuteFailure _ => inl 1%Z
  | VersionQuery => inl 0%Z
  | DatabaseFailure _ => inl 2%Z
  end.

End startup.

(** ** Environments *)

(** The environment [ext] with the error of [v.Unmarshal] erased. *)
Definition without_unmarshal_error (ext : Externals) : Externals := {|
  Database := @Database ext;
  server_Initialize := @server_Initialize ext;
  flag_Parse := @flag_Parse ext;
  viper_ConfigFileUsed := @viper_ConfigFileUsed ext;
  viper_Unmarshal := λ c, ((@viper_Unmarshal ext c).1, None);
  db_CreateDbConnection := @db_CreateDbConnection ext;
  concurrent_Execute := @concurrent_Execute ext;
  time_Since := @time_Since ext
|}.

(** An environment for the witnesses.  Arguments holding [--version] or
    [-v] set the flag; [--bad] is a parse error; initialisation fails
    without a [-f] argument; [db_up] and [servers_start] say whether the
    database accepts the connection and whether the servers start. *)

Definition demo_error (msg : string) : GoError :=
  {| Error := msg; GoSyntax := "&errors.errorString{s:" +:+ msg +:+ "}";
     Context_of := [("component", "db")] |}.

Definition demo_parse (arguments : list string) : ParseResult :=
  if decide ("--bad" ∈ arguments) then
    ParseError (demo_error "unknown flag: --bad")
  else Parsed (bool_decide ("--version" ∈ arguments ∨ "-v" ∈ arguments)).

Definition demo_config : Config :=
  {| Db := {| db_params := [("server", "db.example:8091")] |};
     GetRetries := 3; RetryInterval := 100000000 |}.

Definition demo_env (db_up servers_start : bool) : Externals := {|
  Database := string;
  server_Initialize := λ _ arguments,
    if decide ("-f" ∈ arguments) then None
    else Some (demo_error "no configuration file");
  flag_Parse := demo_parse;
  viper_ConfigFileUsed := "gungnir.yaml";
  viper_Unmarshal := λ _, (demo_config, Some (demo_error "unused key"));
  db_CreateDbConnection := λ dbConfig,
    if db_up then inr "conn0" else inl (demo_error "connection refused");
  concurrent_Execute :=
    if servers_start then None else Some (demo_error "address in use");
  time_Since := 42000000
|}.

(** The arguments of a normal start. *)
Definition demo_args : list string := ["gungnir"; "-f"; "gungnir.yaml"].

(** ** The composed stages implement the table *)

(** [startup_unfold]: expose the stages of [startup]. *)
Ltac startup_unfold :=
  unfold startup, startup_no_validator, outcome, up_state, stage_initialize,
    stage_parse, stage_version, stage_check_initialize, stage_validator,
    stage_config, stage_database, stage_handlers, stage_execute, stage_up,
    loaded_config, Return.

(** [startup_cases arguments]: one goal per outcome, the monad evaluated. *)
Ltac startup_cases arguments :=
  startup_unfold;
  destruct (flag_Parse arguments) as [?|[]] eqn:?; run_eval; try done;
  destruct (server_Initialize applicationName arguments) eqn:?;
    run_eval; try done;
  destruct (db_CreateDbConnection _) eqn:?; run_eval; try done;
  destruct concurrent_Execute eqn:?; run_eval; try done.

Section startup_table.
Context `{ext : Externals}.
Implicit Types (arguments : list string) (o : Outcome).

(** The stages composed with early returns behave as the decision table
    says: the same events in the same order, the same way out. *)
Lemma startup_table arguments :
  startup arguments =
  MkRun (expected_trace arguments (outcome arguments))
        (expected_result (outcome arguments)).
Proof. by startup_cases arguments. Qed.

(** The table read backwards: what each outcome says of the environment. *)
Lemma outcome_inv arguments :
  match outcome arguments with
  | ParseFailure err => flag_Parse arguments = ParseError err
  | VersionQuery => flag_Parse arguments = Parsed true
  | InitializeFailure err =>
      flag_Parse arguments = Parsed false ∧
      server_Initialize applicationName arguments = Some err
  | DatabaseFailure err =>
      flag_Parse arguments = Parsed false ∧
      server_Initialize applicationName arguments = None ∧
      db_CreateDbConnection (Db loaded_config) = inl err
  | ExecuteFailure err =>
      flag_Parse arguments = Parsed false ∧
      server_Initialize applicationName arguments = None ∧
      (∃ database, db_CreateDbConnection (Db loaded_config) = inr database) ∧
      concurrent_Execute = Some err
  | Up st =>
      flag_Parse arguments = Parsed false ∧
      server_Initialize applicationName arguments = None ∧
      db_CreateDbConnection (Db loaded_config) = inr (st_database st) ∧
      concurrent_Execute = None ∧
      st = up_state (st_database st)
  end.
Proof.
  unfold outcome.
  destruct (flag_Parse arguments) as [?|[]]; try done.
  destruct (server_Initialize _ _); [done|].
  destruct (db_CreateDbConnection _) as [?|database]; [done|].
  destruct concurrent_Execute; [|done]. eauto 6.
Qed.

(** The only codes [startup] leaves with. *)
Lemma startup_exit_range arguments code :
  exited (startup arguments) = Some code →
  code = 0%Z ∨ code = 1%Z ∨ code = 2%Z.
Proof.
  rewrite startup_table. unfold exited. simpl.
  destruct (outcome arguments); intros [= <-]; auto.
Qed.

End startup_table.

(** ** Properties of start-up *)

Section startup_properties.
Context `{ext : Externals}.
Implicit Types (arguments : list string).

(** C3: [startup] leaves [gungnir] with the exit code of the first failing
    stage, in the order of the source: 1 for a parse error, 0 for a version
    query, 1 for an initialisation error, 2 for a database error, 1 when
    the servers do not start; it does not leave it when every stage
    succeeds. *)
Theorem startup_exit_code arguments :
  exited (startup arguments) = exit_code (outcome arguments).
Proof.
  rewrite startup_table. unfold exited. simpl.
  by destruct (outcome arguments).
Qed.

(** C21: what [startup] writes to standard error is the one line of the
    failing stage, with the text of the source, and nothing when no stage
    fails or the version is asked for. *)
Theorem startup_stderr arguments :
  stderr_of (trace (startup arguments)) = stderr_text (outcome arguments).
Proof. rewrite startup_table. simpl. by destruct (outcome arguments). Qed.

(** C22: the imported functions [startup] calls, in order: initialisation
    and parsing always; unmarshalling and the database connection only
    when both succeeded and no version was asked for; the servers only
    when the database is connected. *)
Theorem startup_calls arguments :
  calls_of (trace (startup arguments)) = calls_made arguments (outcome arguments).
Proof. rewrite startup_table. simpl. by destruct (outcome arguments). Qed.

(** C19: the second test of [err] (lines 80-83, "Validator error") never
    fires: deleting it changes neither the events nor the result of
    [startup]. *)
Theorem validator_stage_dead arguments :
  startup arguments = startup_no_validator arguments.
Proof. by startup_cases arguments. Qed.

(** C20: when the arguments ask for the version, [startup] prints it and
    leaves with 0 whatever [server.Initialize] returned, because the flag
    is tested (line 67) before the initialisation error (line 72). *)
Theorem version_before_initialize_error arguments :
  flag_Parse arguments = Parsed true →
  startup arguments =
  MkRun [ Called (Initialize applicationName arguments);
          Called (Parse arguments); Stdout ("0.0.0" +:+ nl) ] (inl 0%Z).
Proof. intros H. rewrite startup_table. unfold outcome. by rewrite H. Qed.

(** C23: [startup] leaves with 2 exactly when parsing and initialisation
    succeeded, no version was asked for, and the database connection
    failed. *)
Theorem exit_2_iff_database arguments :
  exited (startup arguments) = Some 2%Z ↔
  flag_Parse arguments = Parsed false ∧
  server_Initialize applicationName arguments = None ∧
  ∃ err, db_CreateDbConnection (Db loaded_config) = inl err.
Proof. startup_cases arguments; naive_solver. Qed.

(** C24: [startup] hands over to the signal loop exactly when no stage
    failed: the arguments parse and do not ask for the version,
    initialisation and the database connection succeed, and the servers
    start. *)
Theorem startup_up_iff arguments :
  is_Some (yielded (startup arguments)) ↔
  flag_Parse arguments = Parsed false ∧
  server_Initialize applicationName arguments = None ∧
  (∃ database, db_CreateDbConnection (Db loaded_config) = inr database) ∧
  concurrent_Execute = None.
Proof. startup_cases arguments; rewrite ?is_Some_alt; naive_solver. Qed.

(** C25: a line on standard error is the last event of [startup], and
    [startup] then leaves [gungnir] with a code other than 0. *)
Theorem failure_is_final arguments t1 s t2 :
  trace (startup arguments) = t1 ++ Stderr s :: t2 →
  t2 = [] ∧ ∃ code, exited (startup arguments) = Some code ∧ code ≠ 0%Z.
Proof.
  rewrite startup_table. cbn [trace]. intros E. split.
  - assert (final is_stderr (expected_trace arguments (outcome arguments)))
      as Hfinal by (destruct (outcome arguments); compute_done).
    by eapply (Hfinal t1 (Stderr s) t2).
  - assert (Exists is_stderr (expected_trace arguments (outcome arguments)))
      as Hex by (rewrite E; apply Exists_app; right; by left).
    unfold exited. destruct (outcome arguments); simpl; eauto;
      exfalso; revert Hex; compute_done.
Qed.

(** C26: what [startup] hands over and what it starts the servers with,
    spelled out: the configuration is what [v.Unmarshal] made of a zero
    [Config]; the connection is the one [db.CreateDbConnection] returned
    for its [Db] part; the history getter and the tombstone getter each
    wrap that connection with [GetRetries] and [RetryInterval], in this
    order; the route table handed to [codex.Prepare] has the single route
    ["/api/v1/device/{deviceID}"], decorated first by the authorisation
    handler (header ["Authorization"], status 403, no validator) and then
    by the bookkeeper, and ending in [handleGetAll]. *)
Theorem startup_wires_handlers arguments st :
  yielded (startup arguments) = Some st →
  let config :=
    (viper_Unmarshal (MkConfig (Mk_db_Config []) 0 0)).1 in
  st_config st = config ∧
  db_CreateDbConnection (Db config) = inr (st_database st) ∧
  st_app st =
    MkApp (MkRetryHGService (st_database st) (GetRetries config)
                            (RetryInterval config))
          (MkRetryTGService (st_database st) (GetRetries config)
                            (RetryInterval config))
          logger ∧
  st_router st =
    [ MkRoute "/api/v1/device/{deviceID}"
              [ Decorate (MkAuthorizationHandler "Authorization" 403 None
                                                 logger);
                Bookkeeper [Code] ]
              handleGetAll ] ∧
  Called (Prepare (st_router st)) ∈ trace (startup arguments).
Proof.
  rewrite startup_table. pose proof (outcome_inv arguments) as H.
  unfold yielded. destruct (outcome arguments); simpl; intros [= <-].
  destruct H as (_ & _ & Hdb & _ & ->). simpl.
  split_and!; [done..|].
  unfold expected_trace. cbn [app]. rewrite !elem_of_cons. auto 10.
Qed.

(** C32: the error [v.Unmarshal] returns is dropped (line 87): erasing it
    from the environment changes nothing of [startup]. *)
Theorem unmarshal_error_ignored arguments :
  startup (ext := without_unmarshal_error ext) arguments = startup arguments.
Proof.
  rewrite !startup_table. unfold outcome, expected_trace, loaded_config.
  simpl. reflexivity.
Qed.

End startup_properties.

(** ** Witnesses *)

Lemma version_before_initialize_error_witness :
  let ext := demo_env true true in
  flag_Parse ["gungnir"; "-v"] = Parsed true ∧
  server_Initialize applicationName ["gungnir"; "-v"] ≠ None ∧
  exited (startup ["gungnir"; "-v"]) = Some 0%Z.
Proof.
  intros ext. split_and!; [reflexivity|discriminate|].
  by rewrite (version_before_initialize_error (ext := ext) ["gungnir"; "-v"]).
Defined.

Lemma failure_is_final_witness :
  let ext := demo_env false true in
  ∃ t1 s t2,
    trace (startup demo_args) = t1 ++ Stderr s :: t2 ∧
    t2 = [] ∧ ∃ code, exited (startup demo_args) = Some code ∧ code ≠ 0%Z.
Proof.
  intros ext.
  exists (removelast (trace (startup demo_args))),
    ("Database Initialize Failed: " +:+
       GoSyntax (demo_error "connection refused") +:+ nl), [].
  split; [reflexivity|].
  by apply (failure_is_final (ext := ext) demo_args
              (removelast (trace (startup demo_args)))
              ("Database Initialize Failed: " +:+
                 GoSyntax (demo_error "connection refused") +:+ nl) []).
Defined.

Lemma startup_wires_handlers_witness :
  let ext := demo_env true true in
  let st := @up_state ext "conn0" in
  yielded (startup demo_args) = Some st ∧
  hg_retries (historyGetter (st_app st)) = 3%Z ∧
  tg_interval (tombstoneGetter (st_app st)) = 100000000%Z ∧
  route_template <$> st_router st = ["/api/v1/device/{deviceID}"].
Proof.
  intros ext st. split; [reflexivity|].
  pose proof (startup_wires_handlers (ext := ext) demo_args st eq_refl)
    as (_ & _ & Happ & Hrouter & _).
  by rewrite Happ, Hrouter.
Defined.
