(* ===== verification/SignalLoop.v ===== *)
(** * The signal loop: lines 146-159 of [gungnir]

    [for exit := false; !exit; { select { ... } }].  Each iteration blocks
    in the [select] until one of its two cases can proceed: a signal
    arrived on [signals], or [done] delivered.  Which case a [select]
    takes, and with which signal, is decided by the environment and the Go
    scheduler; the loop is therefore a function of the sequence of cases
    taken, one per iteration.  A sequence that runs out before the loop is
    left stands for a process that is blocked in the [select]: the run ends
    with status [BlockedInSelect], never with a result. *)

From Stdlib Require Import Ascii String ZArith Lia.
From stdpp Require Import base tactics option list strings.
From S2P Require Import Prelude Config Events.

#[local] Open Scope string_scope.
#[local] Open Scope list_scope.

(** ** Data *)

(** The case a [select] statement takes (lines 148 and 155). *)
Inductive SelectCase : Type :=
  | RecvSignal (s : Signal)   (* case s := <-signals *)
  | RecvDone.                 (* case <-done *)

#[export] Instance SelectCase_eq_dec : EqDecision SelectCase.
Proof. solve_decision. Defined.

(** How far a run of the process got: it returned, or it is blocked in
    the [select] (line 147) or in [waitGroup.Wait()] (line 162). *)
Inductive Status : Type :=
  | Exited (code : Z)
  | BlockedInSelect
  | BlockedInWait.

#[export] Instance Status_eq_dec : EqDecision Status.
Proof. solve_decision. Defined.

(** Computations that emit events and may stop with a [Status]. *)
Definition Exec : Type → Type := Run Event Status.

(** ** The log records of the loop *)

(** Line 150. *)
Definition log_ignoring (s : Signal) : Event :=
  Log LevelInfo
    [ (MessageKey, VString "ignoring signal"); (Key "signal", VSignal s) ].

(** Line 152. *)
Definition log_exiting (s : Signal) : Event :=
  Log LevelError
    [ (MessageKey, VString "exiting due to signal"); (Key "signal", VSignal s) ].

(** Line 156. *)
Definition log_servers_exited : Event :=
  Log LevelError [ (MessageKey, VString "one or more servers exited") ].

(** ** The loop *)

(** The condition of line 149: [s != os.Kill && s != os.Interrupt]. *)
Definition ignored (s : Signal) : bool :=
  bool_decide (s ≠ os_Kill) && bool_decide (s ≠ os_Interrupt).

(** Lines 148-154: a signal was received; [exit] is the loop variable,
    the result its value after the case. *)
Definition case_signal (s : Signal) (exit : bool) : Exec bool :=
  if ignored s then
    emit (log_ignoring s) ;;
    mret exit
  else
    emit (log_exiting s) ;;
    mret true.

(** Lines 155-157: [done] delivered. *)
Definition case_done (exit : bool) : Exec bool :=
  emit log_servers_exited ;;
  mret true.

(** Lines 147-158: the [select] statement, given the case it takes. *)
Definition select_stmt (c : SelectCase) (exit : bool) : Exec bool :=
  match c with
  | RecvSignal s => case_signal s exit
  | RecvDone => case_done exit
  end.

(** Lines 146-159: the loop tests [!exit] before every iteration; it
    yields the cases it did not consume. *)
Fixpoint signal_loop (exit : bool) (cases : list SelectCase)
    : Exec (list SelectCase) :=
  if exit then mret cases
  else
    match cases with
    | [] => exit_with BlockedInSelect
    | c :: rest =>
        exit' ← select_stmt c exit;
        signal_loop exit' rest
    end.

(** ** Specification *)

(** A case that ends the loop: [os.Interrupt], [os.Kill], or [done]. *)
Definition terminating (c : SelectCase) : Prop :=
  match c with
  | RecvSignal s => s = os_Interrupt ∨ s = os_Kill
  | RecvDone => True
  end.

#[export] Instance terminating_dec c : Decision (terminating c).
Proof. destruct c; apply _. Defined.

(** The record an iteration logs. *)
Definition log_of (c : SelectCase) : Event :=
  match c with
  | RecvSignal s => if ignored s then log_ignoring s else log_exiting s
  | RecvDone => log_servers_exited
  end.

(** The event is the Error-level record of a terminating case. *)
Definition is_exit_log (e : Event) : Prop := is_log LevelError e.

#[export] Instance is_exit_log_dec e : Decision (is_exit_log e).
Proof. unfold is_exit_log. apply _. Defined.

(** ** Facts on one iteration *)

Lemma ignored_spec s : ignored s = true ↔ s ≠ os_Interrupt ∧ s ≠ os_Kill.
Proof.
  unfold ignored. rewrite andb_true_iff, !bool_decide_eq_true. tauto.
Qed.

Lemma ignored_terminating s :
  ignored s = false ↔ terminating (RecvSignal s).
Proof.
  rewrite <- not_true_iff_false, ignored_spec. simpl.
  destruct (decide (s = os_Interrupt)), (decide (s = os_Kill)); tauto.
Qed.

(** One iteration logs one record and sets [exit] exactly for a
    terminating case. *)
Lemma select_stmt_run c :
  select_stmt c false =
  MkRun [log_of c] (inr (bool_decide (terminating c))).
Proof.
  destruct c as [s|]; [|done]. unfold select_stmt, case_signal, log_of.
  destruct (ignored s) eqn:E; run_eval; do 2 f_equal; symmetry.
  - apply bool_decide_eq_false. by rewrite <- ignored_terminating, E.
  - apply bool_decide_eq_true. by apply ignored_terminating.
Qed.

(** The level of the record tells whether the case ends the loop. *)
Lemma log_of_exit c : is_exit_log (log_of c) ↔ terminating c.
Proof.
  destruct c as [s|]; [|done]. rewrite <- ignored_terminating. unfold log_of.
  by destruct (ignored s).
Qed.

(** ** Facts on the loop *)

Lemma signal_loop_exit cases : signal_loop true cases = mret cases.
Proof. by destruct cases. Qed.

Lemma signal_loop_nil : signal_loop false [] = exit_with BlockedInSelect.
Proof. done. Qed.

Lemma signal_loop_cons c rest :
  signal_loop false (c :: rest) =
  (MkRun [log_of c] (inr ()) ;; signal_loop (bool_decide (terminating c)) rest).
Proof.
  simpl. rewrite select_stmt_run. by run_eval.
Qed.

(** While no terminating case comes, the loop logs and goes on. *)
Lemma signal_loop_app pre cases :
  Forall (λ c, ¬ terminating c) pre →
  signal_loop false (pre ++ cases) =
  (MkRun (log_of <$> pre) (inr ()) ;; signal_loop false cases).
Proof.
  induction 1 as [|c pre Hc _ IH]; simpl app.
  - run_eval. by destruct (signal_loop false cases).
  - rewrite signal_loop_cons, bool_decide_false, IH by done. by run_eval.
Qed.

(** With no terminating case the loop stays blocked in the [select]. *)
Lemma signal_loop_blocked cases :
  Forall (λ c, ¬ terminating c) cases →
  signal_loop false cases = MkRun (log_of <$> cases) (inl BlockedInSelect).
Proof.
  intros H. rewrite <- (app_nil_r cases) at 1.
  rewrite signal_loop_app, signal_loop_nil by done. run_eval.
  by rewrite app_nil_r.
Qed.

(** The first terminating case ends the loop; what comes after it is not
    consumed. *)
Lemma signal_loop_leaves pre c post :
  Forall (λ c, ¬ terminating c) pre → terminating c →
  signal_loop false (pre ++ c :: post) =
  MkRun (log_of <$> pre ++ [c]) (inr post).
Proof.
  intros Hpre Hc.
  rewrite signal_loop_app, signal_loop_cons, bool_decide_true by done.
  rewrite signal_loop_exit, fmap_app. by run_eval.
Qed.

(** Every sequence of cases either has no terminating case or splits at
    its first one. *)
Lemma first_terminating cases :
  Forall (λ c, ¬ terminating c) cases ∨
  ∃ pre c post, cases = pre ++ c :: post ∧
    Forall (λ c, ¬ terminating c) pre ∧ terminating c.
Proof.
  induction cases as [|c cases [IH|(pre & c' & post & -> & Hpre & Hc')]].
  - by left.
  - destruct (decide (terminating c)) as [Hc|Hc].
    + right. by exists [], c, cases.
    + left. by constructor.
  - right. destruct (decide (terminating c)) as [Hc|Hc].
    + by exists [], c, (pre ++ c' :: post).
    + exists (c :: pre), c', post. split_and!; [done| |done]. by constructor.
Qed.

(** ** Properties of the loop *)

(** C2: an iteration of the loop sets [exit] exactly when the [select]
    received [os.Interrupt] or [os.Kill] from [signals], or took the
    [done] case; every other signal leaves [exit] false. *)
Theorem only_interrupt_kill_done_terminate c :
  yielded (select_stmt c false) = Some true ↔
  c = RecvSignal os_Interrupt ∨ c = RecvSignal os_Kill ∨ c = RecvDone.
Proof.
  rewrite select_stmt_run. unfold yielded. simpl. split.
  - intros [= H%bool_decide_eq_true]. destruct c as [s|]; [|tauto].
    destruct H as [->| ->]; tauto.
  - intros H. do 2 f_equal. apply bool_decide_eq_true.
    destruct H as [->|[->| ->]]; simpl; tauto.
Qed.

(** C10: signals other than [os.Interrupt] and [os.Kill] are logged as
    ignored, one Info record each, and leave the process blocked in the
    [select]: the loop is not left and nothing else happens. *)
Theorem ignored_signals_keep_running sigs :
  Forall (λ s, s ≠ os_Interrupt ∧ s ≠ os_Kill) sigs →
  signal_loop false (RecvSignal <$> sigs) =
  MkRun (log_ignoring <$> sigs) (inl BlockedInSelect).
Proof.
  intros Hsigs. rewrite signal_loop_blocked.
  - rewrite <- list_fmap_compose. f_equal. apply Forall_fmap_ext.
    eapply Forall_impl; [exact Hsigs|]. intros s Hs%ignored_spec.
    simpl. by rewrite Hs.
  - apply Forall_fmap. eapply Forall_impl; [exact Hsigs|].
    intros s [??]. simpl. tauto.
Qed.

(** C4: the loop is left exactly when some case of the sequence is
    terminating; it is left at the first such case, having logged one
    record per case up to and including it, and the cases after it are not
    consumed. *)
Theorem loop_stops_at_first_terminating cases post :
  yielded (signal_loop false cases) = Some post ↔
  ∃ pre c, cases = pre ++ c :: post ∧
    Forall (λ c, ¬ terminating c) pre ∧ terminating c.
Proof.
  split.
  - destruct (first_terminating cases) as [H|(pre & c & post' & -> & Hpre & Hc)].
    + by rewrite signal_loop_blocked.
    + rewrite signal_loop_leaves by done. intros [= <-]. eauto.
  - intros (pre & c & -> & Hpre & Hc). by rewrite signal_loop_leaves.
Qed.

(** C18: the loop never returns by itself: when no case of the sequence is
    terminating the run is blocked in the [select] after one Info record
    per case, however long the sequence. *)
Theorem loop_blocks_without_terminating cases :
  Forall (λ c, ¬ terminating c) cases ↔
  result (signal_loop false cases) = inl BlockedInSelect.
Proof.
  split.
  - intros H. by rewrite signal_loop_blocked.
  - destruct (first_terminating cases) as [H|(pre & c & post & -> & Hpre & Hc)];
      [done|]. by rewrite signal_loop_leaves.
Qed.

(** C31: the trace of the loop holds at most one Error-level record, and
    that record is its last event: after the record of a terminating case
    the loop logs nothing. *)
Theorem loop_exit_log_final cases :
  final is_exit_log (trace (signal_loop false cases)) ∧
  (count is_exit_log (trace (signal_loop false cases)) ≤ 1)%nat.
Proof.
  assert (∀ pre, Forall (λ c, ¬ terminating c) pre →
                 Forall (λ e, ¬ is_exit_log e) (log_of <$> pre)) as Hpre.
  { intros pre Hp. rewrite Forall_fmap. eapply Forall_impl; [exact Hp|].
    intros c Hc. simpl. by rewrite log_of_exit. }
  destruct (first_terminating cases) as [H|(pre & c & post & -> & H & Hc)].
  - rewrite signal_loop_blocked by done. simpl. split.
    + by apply final_none, Hpre.
    + rewrite (proj2 (count_zero is_exit_log _) (Hpre _ H)). lia.
  - rewrite signal_loop_leaves by done. simpl. rewrite fmap_app. split.
    + by apply final_snoc, Hpre.
    + rewrite count_app, (proj2 (count_zero is_exit_log _) (Hpre _ H)).
      simpl. rewrite count_cons, count_nil. case_decide; lia.
Qed.

(** ** Witnesses *)

Lemma ignored_signals_keep_running_witness :
  signal_loop false [RecvSignal syscall_SIGTERM; RecvSignal syscall_SIGHUP] =
  MkRun [log_ignoring syscall_SIGTERM; log_ignoring syscall_SIGHUP]
        (inl BlockedInSelect).
Proof.
  apply (ignored_signals_keep_running [syscall_SIGTERM; syscall_SIGHUP]).
  by repeat constructor.
Defined.
