(* ===== verification/Gungnir.v ===== *)
(** * [gungnir] and [main]: lines 53-168

    The whole function: [startup] (lines 54-143), the installation of the
    signal channel (lines 144-145), the loop (lines 146-159) and the
    shutdown (lines 161-163).  What the environment does while the process
    runs is a [Script]: the cases the successive [select] statements take
    and whether [waitGroup.Wait()] returns.

    The same behaviour is given a second time as a machine that takes one
    input at a time ([proc_step]); [machine_refines_gungnir] proves the two
    agree.  The machine is what [Lifecycle] and [Channels] build on.

    Two scripts are equivalent ([≡]) when they have the same [observed]
    part: the cases up to the first terminating one and, if there is one,
    whether [Wait] returns.  [gungnir] is [Proper] for this equivalence, so
    equivalent scripts can be rewritten under it. *)

From Stdlib Require Import Ascii String ZArith Lia.
From stdpp Require Import base tactics option list strings.
From S2P Require Import Prelude Config Events Startup SignalLoop.

#[local] Open Scope string_scope.
#[local] Open Scope list_scope.
#[local] Set Warnings "-clear-no-such-hyp".

(** ** The environment while the process runs *)
Record Script : Type := MkScript {
  (** the case each successive [select] takes *)
  select_cases : list SelectCase;
  (** whether every server finishes, so that [waitGroup.Wait()] returns *)
  wait_returns : bool
}.

(** ** The function *)

(** A stage of start-up inside the whole run: an early [return code]
    ends the process with [Exited code]. *)
Definition lift {A : Type} (m : Proc A) : Exec A :=
  MkRun (trace m)
        (match result m with
         | inl code => inl (Exited code)
         | inr a => inr a
         end).

(** Lines 144-145: [signals := make(chan os.Signal, 10)] and
    [signal.Notify(signals)]. *)
Definition stage_notify : Exec unit := emit (Called Notify).

(** Lines 161-163: [close(shutdown)], [waitGroup.Wait()], [return 0]. *)
Definition stage_shutdown (returns : bool) : Exec Z :=
  emit (Called CloseShutdown) ;;
  emit (Called Wait) ;;
  if returns then mret 0%Z else exit_with BlockedInWait.

Section gungnir.
Context `{ext : Externals}.

(** Lines 53-164. *)
Definition gungnir (arguments : list string) (script : Script) : Exec Z :=
  _ ← lift (startup arguments);
  stage_notify ;;
  _ ← signal_loop false (select_cases script);
  stage_shutdown (wait_returns script).

(** How the run ended: with the value [gungnir] returned, or blocked. *)
Definition status {A : Type} (code_of : A → Z) (m : Exec A) : Status :=
  match result m with
  | inl s => s
  | inr a => Exited (code_of a)
  end.

(** Lines 166-168: [os.Exit(gungnir(os.Args))]: the events of the process
    and the status it ends with. *)
Definition main (os_Args : list string) (script : Script)
    : list Event * Status :=
  let m := gungnir os_Args script in
  (trace m, status id m).

(** ** The machine *)

(** Where the process stands between two inputs. *)
Inductive PState : Type :=
  | PStarting                (* before line 54 *)
  | PSelect                  (* blocked in the [select], [exit] false *)
  | PWait                    (* [shutdown] closed, blocked in [Wait] *)
  | PExited (code : Z).      (* returned *)

(** What makes the process move. *)
Inductive Input : Type :=
  | Boot                     (* the process is started *)
  | Select (c : SelectCase)  (* the [select] takes case [c] *)
  | WaitDone.                (* every server finished *)

#[export] Instance PState_eq_dec : EqDecision PState.
Proof. solve_decision. Defined.
#[export] Instance Input_eq_dec : EqDecision Input.
Proof. solve_decision. Defined.

(** One move: the state reached and the events emitted, or [None] when
    the input does not concern the state the process is in. *)
Definition proc_step (arguments : list string) (p : PState) (i : Input)
    : option (PState * list Event) :=
  match p, i with
  | PStarting, Boot =>
      let m := startup arguments in
      Some match result m with
           | inl code => (PExited code, trace m)
           | inr _ => (PSelect, trace m ++ [Called Notify])
           end
  | PSelect, Select c =>
      let m := select_stmt c false in
      Some match result m with
           | inr true => (PWait, trace m ++ [Called CloseShutdown; Called Wait])
           | _ => (PSelect, trace m)
           end
  | PWait, WaitDone => Some (PExited 0, [])
  | _, _ => None
  end.

(** A sequence of moves; inputs that do not concern the current state are
    skipped. *)
Fixpoint proc_run (arguments : list string) (p : PState) (inputs : list Input)
    : PState * list Event :=
  match inputs with
  | [] => (p, [])
  | i :: inputs' =>
      match proc_step arguments p i with
      | Some (p', t) =>
          let '(p'', t') := proc_run arguments p' inputs' in (p'', t ++ t')
      | None => proc_run arguments p inputs'
      end
  end.

(** The inputs a script stands for. *)
Definition inputs_of (script : Script) : list Input :=
  Boot :: (Select <$> select_cases script) ++
  (if wait_returns script then [WaitDone] else []).

(** The status a machine state stands for. *)
Definition status_of (p : PState) : option Status :=
  match p with
  | PStarting => None
  | PSelect => Some BlockedInSelect
  | PWait => Some BlockedInWait
  | PExited code => Some (Exited code)
  end.

End gungnir.

(** ** What a run can observe of a script *)

(** The cases up to and including the first terminating one, and whether
    there is one. *)
Fixpoint observed_cases (cases : list SelectCase) : list SelectCase * bool :=
  match cases with
  | [] => ([], false)
  | c :: rest =>
      if decide (terminating c) then ([c], true)
      else let '(seen, over) := observed_cases rest in (c :: seen, over)
  end.

(** The part of a script a run depends on: the cases taken until the loop
    is left, and whether [Wait] returns if the loop is left. *)
Definition observed (script : Script) : Script :=
  let '(seen, over) := observed_cases (select_cases script) in
  MkScript seen (over && wait_returns script).

(** Scripts that no run can tell apart. *)
#[export] Instance script_equiv : Equiv Script :=
  λ s1 s2, observed s1 = observed s2.

#[export] Instance script_equiv_equivalence : Equivalence (≡@{Script}).
Proof.
  unfold equiv, script_equiv. split; [by intros ?|by intros ??|].
  intros ???; congruence.
Qed.

#[export] Instance script_equiv_dec (s1 s2 : Script) : Decision (s1 ≡ s2).
Proof.
  unfold equiv, script_equiv.
  destruct (observed s1) as [l1 w1], (observed s2) as [l2 w2].
  destruct (decide (l1 = l2)), (decide (w1 = w2));
    [left; congruence|right; congruence..].
Defined.

(** ** Classes of events the theorems speak about *)

Definition is_close (e : Event) : Prop := calls CloseShutdown e.
Definition is_wait (e : Event) : Prop := calls Wait e.
Definition is_notify (e : Event) : Prop := calls Notify e.
Definition is_execute (e : Event) : Prop := calls Execute e.

#[export] Instance is_close_dec e : Decision (is_close e).
Proof. unfold is_close. apply _. Defined.
#[export] Instance is_wait_dec e : Decision (is_wait e).
Proof. unfold is_wait. apply _. Defined.
#[export] Instance is_notify_dec e : Decision (is_notify e).
Proof. unfold is_notify. apply _. Defined.
#[export] Instance is_execute_dec e : Decision (is_execute e).
Proof. unfold is_execute. apply _. Defined.

(** ** The run of [gungnir], by cases *)

Section gungnir_facts.
Context `{ext : Externals}.
Implicit Types (arguments : list string) (script : Script).

(** Start-up failed or printed the version: the process is over. *)
Lemma gungnir_not_started arguments script code :
  exited (startup arguments) = Some code →
  gungnir arguments script = MkRun (trace (startup arguments)) (inl (Exited code)).
Proof.
  unfold gungnir, lift, exited. destruct (startup arguments) as [t [c|st]];
    simpl; intros [= <-]. by run_eval.
Qed.

(** Start-up succeeded: the channel is installed and the loop entered. *)
Lemma gungnir_started arguments script st :
  yielded (startup arguments) = Some st →
  gungnir arguments script =
  (MkRun (trace (startup arguments) ++ [Called Notify]) (inr ()) ;;
   _ ← signal_loop false (select_cases script);
   stage_shutdown (wait_returns script)).
Proof.
  unfold gungnir, lift, stage_notify, yielded.
  destruct (startup arguments) as [t [c|st']]; simpl; intros [= <-].
  run_eval. by rewrite <- !app_assoc.
Qed.

(** The loop is never left: blocked in the [select]. *)
Lemma gungnir_blocked_in_select arguments script st :
  yielded (startup arguments) = Some st →
  Forall (λ c, ¬ terminating c) (select_cases script) →
  gungnir arguments script =
  MkRun (trace (startup arguments) ++ [Called Notify] ++
         (log_of <$> select_cases script))
        (inl BlockedInSelect).
Proof.
  intros Hst Hcases. rewrite (gungnir_started _ _ st Hst).
  rewrite signal_loop_blocked by done. run_eval. by rewrite <- !app_assoc.
Qed.

(** The loop is left at the first terminating case: shutdown follows. *)
Lemma gungnir_shut_down arguments script st pre c post :
  yielded (startup arguments) = Some st →
  select_cases script = pre ++ c :: post →
  Forall (λ c, ¬ terminating c) pre → terminating c →
  gungnir arguments script =
  MkRun (trace (startup arguments) ++ [Called Notify] ++
         (log_of <$> pre ++ [c]) ++ [Called CloseShutdown; Called Wait])
        (if wait_returns script then inr 0%Z else inl BlockedInWait).
Proof.
  intros Hst Hsplit Hpre Hc. rewrite (gungnir_started _ _ st Hst), Hsplit.
  rewrite signal_loop_leaves by done. unfold stage_shutdown.
  destruct (wait_returns script); run_eval; by rewrite <- !app_assoc.
Qed.

(** The three ways a run of [gungnir] can go. *)
Inductive RunShape arguments script : Prop :=
  | NotStarted code
      (Hexit : exited (startup arguments) = Some code)
      (Hrun : gungnir arguments script =
              MkRun (trace (startup arguments)) (inl (Exited code)))
  | StaysInLoop st
      (Hup : yielded (startup arguments) = Some st)
      (Hcases : Forall (λ c, ¬ terminating c) (select_cases script))
      (Hrun : gungnir arguments script =
              MkRun (trace (startup arguments) ++ [Called Notify] ++
                     (log_of <$> select_cases script))
                    (inl BlockedInSelect))
  | ShutsDown st pre c post
      (Hup : yielded (startup arguments) = Some st)
      (Hsplit : select_cases script = pre ++ c :: post)
      (Hpre : Forall (λ c, ¬ terminating c) pre)
      (Hc : terminating c)
      (Hrun : gungnir arguments script =
              MkRun (trace (startup arguments) ++ [Called Notify] ++
                     (log_of <$> pre ++ [c]) ++
                     [Called CloseShutdown; Called Wait])
                    (if wait_returns script then inr 0%Z
                     else inl BlockedInWait)).

Lemma gungnir_shape arguments script : RunShape arguments script.
Proof.
  destruct (exited (startup arguments)) as [code|] eqn:Hexit.
  { eapply NotStarted; eauto using gungnir_not_started. }
  apply exited_yielded in Hexit as [st Hst].
  destruct (first_terminating (select_cases script))
    as [H|(pre & c & post & Hsplit & Hpre & Hc)].
  - eapply StaysInLoop; eauto using gungnir_blocked_in_select.
  - eapply ShutsDown; eauto using gungnir_shut_down.
Qed.

(** Start-up alone never closes [shutdown], waits or installs the signal
    channel, and never logs at the Error level of the loop. *)
Lemma startup_no_shutdown_events arguments :
  Forall (λ e, ¬ is_close e ∧ ¬ is_wait e ∧ ¬ is_notify e)
         (trace (startup arguments)).
Proof.
  rewrite startup_table. simpl.
  destruct (outcome arguments); repeat constructor; by intros [=].
Qed.

(** The records of the loop are no calls. *)
Lemma loop_logs_no_calls cases :
  Forall (λ e, ¬ is_call e) (log_of <$> cases).
Proof.
  apply Forall_fmap, Forall_true. intros [s|]; simpl; [|by intros []].
  destruct (ignored s); by intros [].
Qed.

End gungnir_facts.


(** ** Events of the three shapes *)

Section gungnir_counts.
Context `{ext : Externals}.
Implicit Types (arguments : list string) (script : Script).

(** Before the loop is left nothing closes [shutdown] and nothing waits. *)
Lemma before_shutdown_quiet arguments cases :
  Forall (λ e, ¬ is_close e ∧ ¬ is_wait e)
         (trace (startup arguments) ++ [Called Notify] ++ (log_of <$> cases)).
Proof.
  rewrite !Forall_app, Forall_singleton. split_and!.
  - eapply Forall_impl; [apply startup_no_shutdown_events|]. naive_solver.
  - by intros [=].
  - by intros [=].
  - eapply Forall_impl; [apply loop_logs_no_calls|].
    intros e He. split; intros ->; by apply He.
Qed.

(** The events of a run: a part in which [shutdown] is neither closed nor
    waited for, followed, when the loop was left, by the two calls of
    lines 161-162. *)
Lemma gungnir_trace_shape arguments script :
  ∃ quiet, Forall (λ e, ¬ is_close e ∧ ¬ is_wait e) quiet ∧
    (trace (gungnir arguments script) = quiet ∨
     trace (gungnir arguments script) =
       quiet ++ [Called CloseShutdown; Called Wait]).
Proof.
  destruct (gungnir_shape arguments script) as [code ? ->|st ? ? ->|
    st pre c post ? ? ? ? ->]; cbn [trace].
  - exists (trace (startup arguments)). split; [|by left].
    eapply Forall_impl; [apply startup_no_shutdown_events|]. naive_solver.
  - eexists. split; [apply before_shutdown_quiet|by left].
  - exists (trace (startup arguments) ++ [Called Notify] ++
            (log_of <$> pre ++ [c])).
    split; [apply before_shutdown_quiet|right]. by rewrite <- !app_assoc.
Qed.

End gungnir_counts.

(** ** Properties of [gungnir] *)

Section gungnir_properties.
Context `{ext : Externals}.
Implicit Types (arguments : list string) (script : Script).

(** C1: in every run of [gungnir], [close(shutdown)] is executed at most
    once, it is executed as often as [waitGroup.Wait()] is called, and the
    call of [Wait] comes after it; so the channel is never closed twice and
    the process never waits for servers it did not tell to stop. *)
Theorem shutdown_closed_at_most_once arguments script :
  let t := trace (gungnir arguments script) in
  (count is_close t ≤ 1)%nat ∧
  count is_wait t = count is_close t ∧
  precedes is_close is_wait t.
Proof.
  simpl. destruct (gungnir_trace_shape arguments script)
    as (quiet & Hq & [-> | ->]).
  - rewrite !(proj2 (count_zero _ _)) by
      (eapply Forall_impl; [exact Hq|]; naive_solver).
    split_and!; [lia|done|].
    apply precedes_no_Q. eapply Forall_impl; [exact Hq|]. naive_solver.
  - rewrite !count_app, !(proj2 (count_zero _ quiet)) by
      (eapply Forall_impl; [exact Hq|]; naive_solver).
    split_and!; [by compute|done|].
    apply precedes_app_r; [|compute_done].
    eapply Forall_impl; [exact Hq|]. naive_solver.
Qed.

(** C15: [shutdown] is closed exactly in the runs in which start-up
    succeeded and some [select] took a terminating case. *)
Theorem shutdown_closed_iff arguments script :
  Exists is_close (trace (gungnir arguments script)) ↔
  is_Some (yielded (startup arguments)) ∧
  Exists terminating (select_cases script).
Proof.
  destruct (gungnir_shape arguments script) as [code Hexit ->|st Hup Hcases ->|
    st pre c post Hup Hsplit Hpre Hc ->]; cbn [trace].
  - split.
    + intros H%Forall_Exists_neg; [done|].
      eapply Forall_impl; [apply startup_no_shutdown_events|]. naive_solver.
    + intros [[st Hst] _]. unfold exited, yielded in *.
      by destruct (result (startup arguments)).
  - split.
    + intros H%Forall_Exists_neg; [done|].
      eapply Forall_impl; [apply before_shutdown_quiet|]. naive_solver.
    + intros [_ H]. by apply Forall_Exists_neg in Hcases.
  - split; intros _.
    + split; [by eexists|]. rewrite Hsplit. apply Exists_app. right. by left.
    + rewrite !Exists_app. do 3 right. by left.
Qed.

(** C11: a process that was started exits only with 0, and only after
    some [select] took a terminating case and [waitGroup.Wait()]
    returned: there is no other way out of the loop and no timeout on the
    wait. *)
Theorem exit_requires_trigger_and_wait arguments script st code :
  yielded (startup arguments) = Some st →
  status id (gungnir arguments script) = Exited code →
  code = 0%Z ∧ wait_returns script = true ∧
  Exists terminating (select_cases script).
Proof.
  intros Hst. unfold status.
  destruct (gungnir_shape arguments script) as [code' Hexit ->|st' Hup Hcases ->|
    st' pre c post Hup Hsplit Hpre Hc ->]; cbn [result].
  - unfold exited, yielded in *. by destruct (result (startup arguments)).
  - done.
  - destruct (wait_returns script); [|done]. intros [= <-].
    split_and!; [done..|]. rewrite Hsplit. apply Exists_app. right. by left.
Qed.

(** C29: the status [main] ends with is one of the three codes 0, 1
    and 2 whenever the process exits; all lie in the range of portable
    exit codes. *)
Theorem main_exit_codes os_Args script code :
  (main os_Args script).2 = Exited code →
  code = 0%Z ∨ code = 1%Z ∨ code = 2%Z.
Proof.
  unfold main, status. cbn [snd].
  destruct (gungnir_shape os_Args script) as [code' Hexit ->|st' Hup Hcases ->|
    st' pre c post Hup Hsplit Hpre Hc ->]; cbn [result].
  - intros [= ->]. by apply startup_exit_range in Hexit.
  - done.
  - destruct (wait_returns script); [|done]. intros [= <-]. by left.
Qed.

(** C16: the graceful path in full: after a successful start-up, signals
    that are ignored, then a terminating case, and servers that finish,
    [main] has emitted the events of start-up, the call of
    [signal.Notify], one log record per case up to the terminating one,
    [close(shutdown)] and [Wait], and exits with 0. *)
Theorem graceful_shutdown os_Args script st pre c post :
  yielded (startup os_Args) = Some st →
  select_cases script = pre ++ c :: post →
  Forall (λ c, ¬ terminating c) pre → terminating c →
  wait_returns script = true →
  main os_Args script =
  (trace (startup os_Args) ++ [Called Notify] ++ (log_of <$> pre ++ [c]) ++
   [Called CloseShutdown; Called Wait], Exited 0).
Proof.
  intros Hst Hsplit Hpre Hc Hw. unfold main, status.
  rewrite (gungnir_shut_down _ _ st pre c post) by done. by rewrite Hw.
Qed.

End gungnir_properties.

(** ** Scripts a run cannot tell apart *)

Lemma observed_cases_blocked cases :
  Forall (λ c, ¬ terminating c) cases → observed_cases cases = (cases, false).
Proof.
  induction 1 as [|c cases Hc _ IH]; [done|].
  simpl. by rewrite decide_False, IH.
Qed.

Lemma observed_cases_leaves pre c post :
  Forall (λ c, ¬ terminating c) pre → terminating c →
  observed_cases (pre ++ c :: post) = (pre ++ [c], true).
Proof.
  intros Hpre Hc. induction Hpre as [|c' pre Hc' _ IH]; simpl.
  - by rewrite decide_True.
  - by rewrite decide_False, IH.
Qed.

(** Cutting a script after its first terminating case yields a script
    equivalent to it. *)
Lemma script_equiv_cut pre c post w :
  Forall (λ c, ¬ terminating c) pre → terminating c →
  MkScript (pre ++ c :: post) w ≡ MkScript (pre ++ [c]) w.
Proof.
  intros Hpre Hc. unfold equiv, script_equiv, observed. simpl.
  by rewrite !observed_cases_leaves.
Qed.

(** Whether [Wait] would return is not observed when the loop is not
    left. *)
Lemma script_equiv_blocked cases w w' :
  Forall (λ c, ¬ terminating c) cases →
  MkScript cases w ≡ MkScript cases w'.
Proof.
  intros Hcases. unfold equiv, script_equiv, observed. simpl.
  by rewrite !observed_cases_blocked.
Qed.

Section observation.
Context `{ext : Externals}.
Implicit Types (arguments : list string) (script : Script).

(** A run depends on the observed part of its script only. *)
Lemma gungnir_observed arguments script :
  gungnir arguments script = gungnir arguments (observed script).
Proof.
  destruct (exited (startup arguments)) as [code|] eqn:Hexit;
    [by rewrite !(gungnir_not_started _ _ code)|].
  apply exited_yielded in Hexit as [st Hst]. destruct script as [cases w].
  unfold observed. cbn [select_cases wait_returns].
  destruct (first_terminating cases) as [Hall|(pre & c & post & -> & Hpre & Hc)].
  - rewrite observed_cases_blocked by done.
    by rewrite !(gungnir_blocked_in_select _ _ st).
  - rewrite observed_cases_leaves by done.
    by rewrite (gungnir_shut_down _ _ st pre c post),
               (gungnir_shut_down _ _ st pre c []).
Qed.

#[export] Instance gungnir_proper arguments :
  Proper ((≡) ==> (=)) (gungnir arguments).
Proof.
  intros s1 s2 Hs. rewrite (gungnir_observed _ s1), (gungnir_observed _ s2).
  by f_equal.
Qed.

(** C30: what is delivered after the first terminating case is never
    observed, and neither is the fate of the servers while the loop is not
    left: scripts with the same observed part give the same events and the
    same status, so a second interrupt, or [done] after an interrupt,
    changes nothing. *)
Theorem redundant_signals_unobserved os_Args (s1 s2 : Script) :
  s1 ≡ s2 → main os_Args s1 = main os_Args s2.
Proof. intros Hs. unfold main. by rewrite Hs. Qed.

End observation.

(** ** The machine agrees with the function *)

Section machine.
Context `{ext : Externals}.
Implicit Types (arguments : list string) (script : Script).

(** A move unfolds the run by one input. *)
Lemma proc_run_cons arguments p i inputs :
  proc_run arguments p (i :: inputs) =
  match proc_step arguments p i with
  | Some (p', t) =>
      ((proc_run arguments p' inputs).1, t ++ (proc_run arguments p' inputs).2)
  | None => proc_run arguments p inputs
  end.
Proof.
  cbn [proc_run]. destruct (proc_step _ _ _) as [[p' t]|]; [|done].
  by destruct (proc_run _ _ _).
Qed.

Lemma proc_run_exited arguments code inputs :
  proc_run arguments (PExited code) inputs = (PExited code, []).
Proof. induction inputs as [|[] inputs IH]; simpl; by rewrite ?IH. Qed.

(** Blocked in [Wait], the process takes no [select] case any more. *)
Lemma proc_run_wait arguments cases inputs :
  proc_run arguments PWait ((Select <$> cases) ++ inputs) =
  proc_run arguments PWait inputs.
Proof. induction cases; simpl; done. Qed.

Lemma proc_step_select arguments c :
  proc_step arguments PSelect (Select c) =
  Some (if bool_decide (terminating c)
        then (PWait, [log_of c; Called CloseShutdown; Called Wait])
        else (PSelect, [log_of c])).
Proof. simpl. rewrite select_stmt_run. simpl. by destruct (bool_decide _). Qed.

Lemma proc_run_ignored arguments pre inputs :
  Forall (λ c, ¬ terminating c) pre →
  proc_run arguments PSelect ((Select <$> pre) ++ inputs) =
  ((proc_run arguments PSelect inputs).1,
   (log_of <$> pre) ++ (proc_run arguments PSelect inputs).2).
Proof.
  induction 1 as [|c pre Hc _ IH]; [by destruct (proc_run _ _ _)|].
  cbn [fmap list_fmap app proc_run]. rewrite proc_step_select.
  rewrite bool_decide_false, IH by done. done.
Qed.

(** What is left of a script once the loop is over or blocked. *)
Lemma proc_run_tail arguments p (w : bool) :
  p = PSelect ∨ p = PWait →
  proc_run arguments p (if w then [WaitDone] else []) =
  match p, w with
  | PWait, true => (PExited 0, [])
  | _, _ => (p, [])
  end.
Proof. intros [-> | ->]; by destruct w. Qed.

(** C8: the machine that takes one input at a time and the function
    [gungnir] agree on every script: they emit the same events in the same
    order, and the state the machine stops in is the status of the run. *)
Theorem machine_refines_gungnir arguments script :
  (proc_run arguments PStarting (inputs_of script)).2 =
    trace (gungnir arguments script) ∧
  status_of (proc_run arguments PStarting (inputs_of script)).1 =
    Some (status id (gungnir arguments script)).
Proof.
  unfold inputs_of, status. cbn [proc_run proc_step].
  destruct (gungnir_shape arguments script) as [code Hexit ->|st Hup Hcases ->|
    st pre c post Hup Hsplit Hpre Hc ->]; cbn [trace result];
    unfold exited, yielded in *;
    destruct (result (startup arguments)) as [code'|st'] eqn:E; simplify_eq.
  - rewrite proc_run_exited. simpl. by rewrite app_nil_r.
  - rewrite proc_run_ignored, proc_run_tail by auto. simpl.
    by rewrite ?app_nil_r, <- ?app_assoc.
  - rewrite Hsplit, fmap_app, <- app_assoc, proc_run_ignored by done.
    cbn [fmap list_fmap app proc_run]. rewrite proc_step_select.
    rewrite bool_decide_true, proc_run_wait, proc_run_tail by auto.
    destruct (wait_returns script); simpl;
      by rewrite ?fmap_app, ?app_nil_r, <- ?app_assoc.
Qed.

End machine.

(** ** Witnesses *)

(** A run that is started, ignores a hang-up, is interrupted, and whose
    servers finish; the kill that follows is never received. *)
Definition demo_script : Script :=
  {| select_cases :=
       [RecvSignal syscall_SIGHUP; RecvSignal os_Interrupt; RecvSignal os_Kill];
     wait_returns := true |}.

Lemma graceful_shutdown_witness :
  let ext := demo_env true true in
  (main demo_args demo_script).2 = Exited 0 ∧
  count is_close (main demo_args demo_script).1 = 1%nat.
Proof.
  intros ext.
  rewrite (graceful_shutdown (ext := ext) demo_args demo_script
             (@up_state (demo_env true true) "conn0") [RecvSignal syscall_SIGHUP]
             (RecvSignal os_Interrupt) [RecvSignal os_Kill]);
    [split; reflexivity|reflexivity|reflexivity| |by left|reflexivity].
  repeat constructor. by intros [|].
Defined.

Lemma exit_requires_trigger_and_wait_witness :
  let ext := demo_env true true in
  status id (gungnir demo_args demo_script) = Exited 0 ∧
  wait_returns demo_script = true ∧
  Exists terminating (select_cases demo_script).
Proof.
  intros ext. split; [reflexivity|].
  by apply (exit_requires_trigger_and_wait (ext := ext) demo_args demo_script
              (@up_state (demo_env true true) "conn0") 0%Z).
Defined.

Lemma main_exit_codes_witness :
  let ext := demo_env false true in
  (main demo_args demo_script).2 = Exited 2 ∧
  (2 = 0 ∨ 2 = 1 ∨ 2 = 2)%Z.
Proof.
  intros ext. split; [reflexivity|].
  by apply (main_exit_codes (ext := ext) demo_args demo_script).
Defined.

Lemma redundant_signals_unobserved_witness :
  let ext := demo_env true true in
  main demo_args demo_script =
  main demo_args
    (MkScript [RecvSignal syscall_SIGHUP; RecvSignal os_Interrupt] true).
Proof.
  intros ext.
  apply (redundant_signals_unobserved (ext := ext) demo_args demo_script).
  reflexivity.
Defined.
