(* ===== verification/Lifecycle.v ===== *)
(** * The lifecycle the orchestrator promises, and that [gungnir] keeps it

    The abstract state machine [Starting → Running → ShuttingDown → Stopped]
    twice: as a step relation on phases alone ([phase_step], with the
    executable test [phase_stepb]), and with the events every move must
    show ([edge], [path]): servers are started and the signal channel is
    installed on the way to [Running], an ignored signal shows one Info
    record, the trigger shows one Error record followed by
    [close(shutdown)] and [Wait], a refusal to start ends in a line on
    standard error (or in the version on standard output) and closes
    nothing.

    [phase_of] maps the control points of [gungnir] (the states of
    [Gungnir.proc_step]) to phases.  [machine_follows_lifecycle] is the
    simulation of the machine by [phase_step];
    [gungnir_follows_lifecycle] shows that the events of every run of
    [gungnir] are the labels of a [path] from [Starting] to the phase the
    run ended or is blocked in. *)

From Stdlib Require Import String ZArith Lia.
From stdpp Require Import base tactics option list relations.
From S2P Require Import Prelude Config Events Startup SignalLoop Gungnir.

#[local] Open Scope list_scope.

(** ** The abstract machine *)

Inductive Phase : Type :=
  | Starting
  | Running
  | ShuttingDown
  | Stopped (code : Z).

#[export] Instance Phase_eq_dec : EqDecision Phase.
Proof. solve_decision. Defined.

(** The moves of the lifecycle.  A process that does not come up stops
    with one of the codes 0 (version query), 1 or 2; one that was shut
    down stops with 0. *)
Inductive phase_step : Phase → Phase → Prop :=
  | launch : phase_step Starting Running
  | refuse code : (0 ≤ code ≤ 2)%Z → phase_step Starting (Stopped code)
  | keep_running : phase_step Running Running
  | trigger : phase_step Running ShuttingDown
  | complete : phase_step ShuttingDown (Stopped 0).

(** The same, as a test. *)
Definition phase_stepb (a b : Phase) : bool :=
  match a, b with
  | Starting, Running => true
  | Starting, Stopped code => bool_decide (0 ≤ code ≤ 2)%Z
  | Running, Running => true
  | Running, ShuttingDown => true
  | ShuttingDown, Stopped code => bool_decide (code = 0%Z)
  | _, _ => false
  end.

(** The phase of a control point of [gungnir]. *)
Definition phase_of (p : PState) : Phase :=
  match p with
  | PStarting => Starting
  | PSelect => Running
  | PWait => ShuttingDown
  | PExited code => Stopped code
  end.

(** The phase a run of [gungnir] ended or is blocked in. *)
Definition phase_of_status (s : Status) : Phase :=
  match s with
  | Exited code => Stopped code
  | BlockedInSelect => Running
  | BlockedInWait => ShuttingDown
  end.

(** ** The lifecycle with the events it shows *)

(** Nothing in [t] installs the signal channel, closes [shutdown] or
    waits for the servers. *)
Definition before_running (t : list Event) : Prop :=
  Forall (λ e, ¬ is_notify e ∧ ¬ is_close e ∧ ¬ is_wait e) t.

(** A move of the lifecycle together with the events of the process while
    it makes the move. *)
Inductive edge : Phase → list Event → Phase → Prop :=
  | edge_launch t :
      before_running t → Exists is_execute t →
      Forall (λ e, ¬ is_stderr e ∧ ¬ is_stdout e) t →
      edge Starting (t ++ [Called Notify]) Running
  | edge_version t s :
      before_running (t ++ [Stdout s]) →
      Forall (λ e, ¬ is_db_connect e ∧ ¬ is_execute e) t →
      edge Starting (t ++ [Stdout s]) (Stopped 0)
  | edge_failure t s code :
      (1 ≤ code ≤ 2)%Z → before_running (t ++ [Stderr s]) →
      edge Starting (t ++ [Stderr s]) (Stopped code)
  | edge_ignore e :
      is_log LevelInfo e → edge Running [e] Running
  | edge_trigger e :
      is_log LevelError e →
      edge Running [e; Called CloseShutdown; Called Wait] ShuttingDown
  | edge_complete : edge ShuttingDown [] (Stopped 0).

(** A sequence of moves and the events of all of them, in order. *)
Inductive path : Phase → list Event → Phase → Prop :=
  | path_nil a : path a [] a
  | path_cons a t b t' c : edge a t b → path b t' c → path a (t ++ t') c.

(** [events_differ]: every event of a list that is written out is of
    another kind than the ones excluded. *)
Ltac events_differ :=
  unfold before_running; cbn [app];
  repeat constructor; let H := fresh in intros H; by inversion H.

(** ** The abstract machine alone *)

Lemma phase_stepb_spec a b : phase_stepb a b = true ↔ phase_step a b.
Proof.
  split.
  - destruct a, b; simpl; try done; rewrite ?bool_decide_eq_true;
      intros; subst; by constructor.
  - destruct 1; simpl; rewrite ?bool_decide_eq_true; done.
Qed.

#[export] Instance phase_step_dec a b : Decision (phase_step a b).
Proof.
  refine (cast_if (decide (phase_stepb a b = true)));
    by rewrite <- phase_stepb_spec.
Defined.

(** [Stopped] is terminal. *)
Lemma stopped_steps code b : rtc phase_step (Stopped code) b → b = Stopped code.
Proof. intros Hs. inversion Hs as [|? ? ? Hstep]; [done|]. invert Hstep. Qed.

(** After the shutdown was triggered the only way on is to stop with 0. *)
Lemma shutting_down_steps b :
  rtc phase_step ShuttingDown b → b = ShuttingDown ∨ b = Stopped 0.
Proof.
  intros Hs. inversion Hs as [|? ? ? Hstep Hrest]; [by left|].
  invert Hstep. apply stopped_steps in Hrest. by right.
Qed.

(** A process that stops with a code other than 0 never ran. *)
Lemma steps_to_failure a code :
  rtc phase_step a (Stopped code) → code ≠ 0%Z →
  a = Starting ∨ a = Stopped code.
Proof.
  intros Hsteps Hcode. remember (Stopped code) as z eqn:Ez.
  induction Hsteps as [|x y z Hxy _ IH]; [by right|]. subst z.
  destruct (IH eq_refl) as [-> | ->]; invert Hxy; auto; done.
Qed.

(** Forgetting the events of a move leaves a move of [phase_step]. *)
Lemma edge_phase_step a t b : edge a t b → phase_step a b.
Proof. destruct 1; constructor; lia. Qed.

Lemma path_phase_steps a t b : path a t b → rtc phase_step a b.
Proof.
  induction 1 as [|a t b t' c Hedge _ IH]; [done|].
  eapply rtc_l; [by eapply edge_phase_step|done].
Qed.

Lemma path_once a t b : edge a t b → path a t b.
Proof.
  intros H. rewrite <- (app_nil_r t). eapply path_cons; [done|constructor].
Qed.

Lemma path_app a t b t' c : path a t b → path b t' c → path a (t ++ t') c.
Proof.
  induction 1 as [|a t1 b1 t2 b Hedge _ IH]; [done|]. intros Hc.
  rewrite <- app_assoc. eapply path_cons; [done|by apply IH].
Qed.

(** [Stopped] is terminal and silent. *)
Lemma path_stopped code t b : path (Stopped code) t b → t = [] ∧ b = Stopped code.
Proof. intros H. inversion H as [|? ? ? ? ? Hedge]; [done|]. invert Hedge. Qed.

(** After the trigger nothing is shown any more. *)
Lemma path_shutting_down t b :
  path ShuttingDown t b → t = [] ∧ (b = ShuttingDown ∨ b = Stopped 0).
Proof.
  intros H. inversion H as [|? ? ? ? ? Hedge Hrest]; [by auto|]. subst.
  invert Hedge. apply path_stopped in Hrest as [-> ->]. auto.
Qed.

(** On a path that starts in [Running], [shutdown] is closed once if the
    path leaves [Running] and not at all if it stays, and the path can
    only stop with 0. *)
Lemma path_running_close t b :
  path Running t b →
  count is_close t = (if decide (b = Running) then 0 else 1) ∧
  (∀ code, b = Stopped code → code = 0%Z).
Proof.
  intros Hpath. remember Running as a eqn:Ea. revert Ea.
  induction Hpath as [|a t b t' c Hedge Hrest IH]; intros ->;
    [by rewrite decide_True|].
  rewrite count_app. inversion Hedge as [| | |e He|e He|]; subst.
  - destruct (IH eq_refl) as [-> ?]. split; [|done].
    rewrite count_cons, count_nil, decide_False; [done|].
    intros ->. by destruct He.
  - apply path_shutting_down in Hrest as [-> [-> | ->]];
      rewrite decide_False by done; (split; [|by intros ? [= <-]]);
      destruct e; try done; by vm_compute.
Qed.

#[export] Hint Constructors phase_step edge path : trace.

(** ** The process against the lifecycle *)

Section simulation.
Context `{ext : Externals}.
Implicit Types (arguments : list string) (p : PState) (i : Input).
Implicit Types (inputs : list Input) (script : Script).

(** A code [startup] returns is one the lifecycle lets a process stop
    with. *)
Lemma startup_refuses arguments code :
  exited (startup arguments) = Some code →
  phase_step Starting (Stopped code).
Proof.
  intros H. apply refuse.
  destruct (startup_exit_range _ _ H) as [->|[->| ->]]; lia.
Qed.

(** One move of the process is one move of the lifecycle. *)
Lemma proc_step_phase arguments p i p' t :
  proc_step arguments p i = Some (p', t) →
  phase_step (phase_of p) (phase_of p').
Proof.
  destruct p, i; try done.
  - cbn [proc_step]. destruct (result (startup arguments)) as [code|st] eqn:E;
      intros [= <- <-]; [|by constructor].
    apply (startup_refuses arguments). unfold exited. by rewrite E.
  - rewrite proc_step_select.
    destruct (bool_decide _); intros [= <- <-]; constructor.
  - intros [= <- <-]. constructor.
Qed.

(** C6: every run of the process, from any control point and on any
    sequence of inputs, is a path of the lifecycle
    [Starting → Running → ShuttingDown → Stopped]. *)
Theorem machine_follows_lifecycle arguments p inputs :
  rtc phase_step (phase_of p) (phase_of (proc_run arguments p inputs).1).
Proof.
  revert p. induction inputs as [|i inputs IH]; intros p; [done|].
  rewrite proc_run_cons.
  destruct (proc_step arguments p i) as [[p' t]|] eqn:E; [|done].
  eapply rtc_l; [by eapply proc_step_phase|]. apply IH.
Qed.

(** A run that does not come up makes the one move from [Starting] to
    [Stopped], with the events of a refusal. *)
Lemma startup_refuses_edge arguments code :
  exited (startup arguments) = Some code →
  edge Starting (trace (startup arguments)) (Stopped code).
Proof.
  rewrite startup_table. unfold exited. cbn [trace result].
  destruct (outcome arguments) as [err| |err|err|err|st]; intros [= <-];
    cbn [expected_trace app].
  - apply (edge_failure [_; _]); [lia|events_differ].
  - apply (edge_version [_; _]); events_differ.
  - apply (edge_failure [_; _]); [lia|events_differ].
  - apply (edge_failure [_; _; _; _; _; _]); [lia|events_differ].
  - apply (edge_failure [_; _; _; _; _; _; _]); [lia|events_differ].
Qed.

(** A run that comes up makes the move to [Running]: the servers were
    started, the signal channel is installed last, nothing was written to
    standard error. *)
Lemma startup_launches arguments st :
  yielded (startup arguments) = Some st →
  edge Starting (trace (startup arguments) ++ [Called Notify]) Running.
Proof.
  rewrite startup_table. unfold yielded. cbn [trace result].
  destruct (outcome arguments) as [err| |err|err|err|st']; intros [= <-].
  cbn [expected_trace app].
  apply (edge_launch [_; _; _; _; _; _; _; _]); [events_differ| |events_differ].
  do 6 apply Exists_cons_tl. by apply Exists_cons_hd.
Qed.

(** Ignored cases keep the process running, one Info record each. *)
Lemma ignored_path cases :
  Forall (λ c, ¬ terminating c) cases →
  path Running (log_of <$> cases) Running.
Proof.
  induction 1 as [|c cases Hc _ IH]; [constructor|].
  apply (path_cons _ [log_of c] Running); [|done]. apply edge_ignore.
  pose proof (log_of_exit c) as Hlog. unfold is_exit_log in Hlog.
  destruct c as [s|]; [|by destruct Hc]. simpl in *.
  destruct (ignored s); [done|]. by destruct Hc; apply Hlog.
Qed.

(** C27: the events of every run of [gungnir] are those of a path of the
    lifecycle from [Starting] to the phase the run ended or is blocked
    in.  A run reaches [Running] only having started the servers and
    installed the signal channel; it leaves [Running] only with one
    Error record followed by [close(shutdown)] and [Wait]; it stops with
    a code other than 0 only from [Starting], after a line on standard
    error, and with 0 from [Starting] only after printing the version. *)
Theorem gungnir_follows_lifecycle arguments script :
  path Starting (trace (gungnir arguments script))
       (phase_of_status (status id (gungnir arguments script))).
Proof.
  unfold status.
  destruct (gungnir_shape arguments script) as [code Hexit ->|st Hup Hcases ->|
    st pre c post Hup Hsplit Hpre Hc ->]; cbn [result trace phase_of_status].
  - by apply path_once, startup_refuses_edge.
  - rewrite app_assoc.
    eapply path_cons; [by eapply startup_launches|by apply ignored_path].
  - rewrite fmap_app, !app_assoc, <- (app_assoc _ (log_of <$> [c])).
    rewrite <- (app_assoc _ (log_of <$> pre)).
    eapply path_cons; [by eapply startup_launches|].
    eapply path_app; [by apply ignored_path|].
    replace ((log_of <$> [c]) ++ [Called CloseShutdown; Called Wait])
      with ([log_of c; Called CloseShutdown; Called Wait] ++ []) by done.
    eapply path_cons; [apply edge_trigger; by apply log_of_exit|].
    destruct (wait_returns script); [apply path_once, edge_complete|].
    constructor.
Qed.

End simulation.
