(* ===== verification/Channels.v ===== *)
(** * The channels and goroutines behind lines 135-163

    [SignalLoop] and [Gungnir] take the cases of the [select] as given.
    This file models where they come from: the buffered channel [signals]
    of line 144 that the runtime fills without blocking (line 145), the
    channel [done] that a server exiting makes ready (line 135), the channel
    [shutdown] that line 161 closes, and the counter [waitGroup] that line
    162 waits on (line 137).  The main goroutine, the runtime and the
    servers move one at a time, in any order: [act] computes a move, [step]
    gives the same moves as rules, [run] follows a schedule.

    A [select] with both cases ready may take either: both [SelectSignal]
    and [SelectDone] are then enabled.  From the moment a case sets [exit]
    to the call of [Wait] the main goroutine reads nothing that another
    goroutine writes, so lines 153-162 are one move. *)

From Stdlib Require Import String ZArith Lia.
From stdpp Require Import base tactics option list.
From S2P Require Import Prelude Config Events Startup SignalLoop Gungnir.

#[local] Open Scope list_scope.
#[local] Set Warnings "-clear-no-such-hyp".

(** ** State *)

(** Line 144: [make(chan os.Signal, 10)]. *)
Definition signals_capacity : nat := 10.

Record World : Type := MkWorld {
  (** what [signals] holds, oldest first *)
  signals : list Signal;
  (** a receive from [done] would succeed: some server has exited *)
  done : bool;
  (** [shutdown] has been closed *)
  shutdown : bool;
  (** the counter of [waitGroup]: servers that have not finished *)
  waitGroup : nat;
  (** where the main goroutine stands *)
  pc : PState
}.

#[export] Instance World_eq_dec : EqDecision World.
Proof. solve_decision. Defined.

(** After line 145, with [servers] servers started by [concurrent.Execute]. *)
Definition world_init (servers : nat) : World :=
  MkWorld [] false false servers PSelect.

Definition set_signals (buf : list Signal) (w : World) : World :=
  MkWorld buf (done w) (shutdown w) (waitGroup w) (pc w).

Definition set_pc (p : PState) (w : World) : World :=
  MkWorld (signals w) (done w) (shutdown w) (waitGroup w) p.

(** ** Channel operations *)

(** Line 145: the runtime hands a signal to [signals] with a send that
    does not block; when the buffer is full the signal is dropped. *)
Definition send_nonblocking (s : Signal) (buf : list Signal) : list Signal :=
  if decide (length buf < signals_capacity) then buf ++ [s] else buf.

(** Line 161: [close] of a channel that is already closed panics. *)
Definition close_chan (closed : bool) : option bool :=
  if closed then None else Some true.

(** A server returns: it is counted out of [waitGroup] and [done] becomes
    ready. *)
Definition server_exits (w : World) : option World :=
  match waitGroup w with
  | O => None
  | S n => Some (MkWorld (signals w) true (shutdown w) n (pc w))
  end.

(** ** Moves *)

Inductive Action : Type :=
  | Deliver (s : Signal)   (* the operating system sends [s] to the process *)
  | ServerExits            (* a server goroutine returns *)
  | SelectSignal           (* main: the [select] takes [s := <-signals] *)
  | SelectDone             (* main: the [select] takes [<-done] *)
  | WaitReturns.           (* main: [waitGroup.Wait()] returns, [return 0] *)

Inductive Result : Type :=
  | Disabled                              (* the move is not possible now *)
  | Panic                                 (* the process panics *)
  | Next (w : World) (t : list Event).    (* the world after, what was logged *)

#[export] Instance Action_eq_dec : EqDecision Action.
Proof. solve_decision. Defined.
#[export] Instance Result_eq_dec : EqDecision Result.
Proof. solve_decision. Defined.

(** Lines 148-162: the body of the case the [select] took, and when it set
    [exit], [close(shutdown)] and the call of [waitGroup.Wait()]. *)
Definition after_select (c : SelectCase) (w : World) : Result :=
  let m := select_stmt c false in
  match result m with
  | inr true =>
      match close_chan (shutdown w) with
      | Some closed =>
          Next (MkWorld (signals w) (done w) closed (waitGroup w) PWait)
               (trace m ++ [Called CloseShutdown; Called Wait])
      | None => Panic
      end
  | _ => Next w (trace m)
  end.

(** One move of one goroutine. *)
Definition act (w : World) (a : Action) : Result :=
  match a with
  | Deliver s =>
      match pc w with
      | PExited _ => Disabled
      | _ => Next (set_signals (send_nonblocking s (signals w)) w) []
      end
  | ServerExits =>
      match server_exits w with
      | Some w' => Next w' []
      | None => Disabled
      end
  | SelectSignal =>
      match pc w, signals w with
      | PSelect, s :: rest => after_select (RecvSignal s) (set_signals rest w)
      | _, _ => Disabled
      end
  | SelectDone =>
      match pc w, done w with
      | PSelect, true => after_select RecvDone w
      | _, _ => Disabled
      end
  | WaitReturns =>
      match pc w, waitGroup w with
      | PWait, O => Next (set_pc (PExited 0) w) []
      | _, _ => Disabled
      end
  end.

(** A schedule: moves in the order they happen.  [None] when a move of the
    schedule is not possible or panics. *)
Fixpoint run (w : World) (acts : list Action) : option (World * list Event) :=
  match acts with
  | [] => Some (w, [])
  | a :: acts' =>
      match act w a with
      | Next w' t => '(w'', t') ← run w' acts'; Some (w'', t ++ t')
      | _ => None
      end
  end.

(** The input of [Gungnir.proc_step] a move stands for, if it is a move of
    the main goroutine. *)
Definition input_of (w : World) (a : Action) : option Input :=
  match a with
  | SelectSignal => s ← head (signals w); Some (Select (RecvSignal s))
  | SelectDone => Some (Select RecvDone)
  | WaitReturns => Some WaitDone
  | Deliver _ | ServerExits => None
  end.

(** The inputs the main goroutine takes along a schedule. *)
Fixpoint inputs_along (w : World) (acts : list Action) : list Input :=
  match acts with
  | [] => []
  | a :: acts' =>
      match act w a with
      | Next w' _ => option_list (input_of w a) ++ inputs_along w' acts'
      | _ => []
      end
  end.

(** ** The moves as rules *)

Inductive step : World → Action → list Event → World → Prop :=
  | step_deliver w s :
      (∀ code, pc w ≠ PExited code) →
      step w (Deliver s) [] (set_signals (send_nonblocking s (signals w)) w)
  | step_server w n :
      waitGroup w = S n →
      step w ServerExits [] (MkWorld (signals w) true (shutdown w) n (pc w))
  | step_ignore w s rest :
      pc w = PSelect → signals w = s :: rest →
      s ≠ os_Interrupt → s ≠ os_Kill →
      step w SelectSignal [log_ignoring s] (set_signals rest w)
  | step_signal w s rest :
      pc w = PSelect → signals w = s :: rest →
      s = os_Interrupt ∨ s = os_Kill → shutdown w = false →
      step w SelectSignal [log_exiting s; Called CloseShutdown; Called Wait]
           (MkWorld rest (done w) true (waitGroup w) PWait)
  | step_done w :
      pc w = PSelect → done w = true → shutdown w = false →
      step w SelectDone [log_servers_exited; Called CloseShutdown; Called Wait]
           (MkWorld (signals w) (done w) true (waitGroup w) PWait)
  | step_wait w :
      pc w = PWait → waitGroup w = 0 →
      step w WaitReturns [] (set_pc (PExited 0) w).

(** The worlds the process can be in. *)
Inductive reachable (servers : nat) : World → Prop :=
  | reach_init : reachable servers (world_init servers)
  | reach_step w a t w' :
      reachable servers w → step w a t w' → reachable servers w'.

(** What holds of every world the process can be in. *)
Record world_inv (servers : nat) (w : World) : Prop := MkInv {
  inv_capacity : length (signals w) ≤ signals_capacity;
  inv_shutdown : shutdown w = bool_decide (pc w ≠ PSelect);
  inv_started : pc w ≠ PStarting;
  inv_exit : ∀ code, pc w = PExited code → code = 0%Z ∧ waitGroup w = 0;
  inv_servers : waitGroup w ≤ servers;
  inv_done : done w = bool_decide (waitGroup w < servers)
}.

(** [world_simpl]: project the fields of a world that is written out. *)
Ltac world_simpl :=
  unfold set_signals, set_pc in *;
  cbn [signals done shutdown waitGroup pc] in *.

(** ** Facts on one move *)

Lemma send_nonblocking_length s buf :
  length buf ≤ signals_capacity →
  length (send_nonblocking s buf) ≤ signals_capacity.
Proof.
  unfold send_nonblocking. case_decide; [|done].
  rewrite length_app. simpl. lia.
Qed.

(** A send either appends the signal or, the buffer being full, drops it. *)
Lemma send_nonblocking_spec s buf :
  (length buf < signals_capacity ∧ send_nonblocking s buf = buf ++ [s]) ∨
  (signals_capacity ≤ length buf ∧ send_nonblocking s buf = buf).
Proof. unfold send_nonblocking. case_decide; [left|right]; split; lia || done. Qed.

Lemma log_of_ignored s : ignored s = true → log_of (RecvSignal s) = log_ignoring s.
Proof. by intros H; simpl; rewrite H. Qed.

Lemma log_of_exiting s : ignored s = false → log_of (RecvSignal s) = log_exiting s.
Proof. by intros H; simpl; rewrite H. Qed.

(** The body of a case, by what the case is. *)
Lemma after_select_run c w :
  after_select c w =
  if bool_decide (terminating c) then
    match close_chan (shutdown w) with
    | Some closed =>
        Next (MkWorld (signals w) (done w) closed (waitGroup w) PWait)
             [log_of c; Called CloseShutdown; Called Wait]
    | None => Panic
    end
  else Next w [log_of c].
Proof.
  unfold after_select. rewrite select_stmt_run. simpl.
  by destruct (bool_decide _).
Qed.

Lemma act_step w a w' t : act w a = Next w' t → step w a t w'.
Proof.
  destruct a as [s| | | |]; unfold act, server_exits.
  - destruct (pc w) eqn:E; intros [= <- <-]; apply step_deliver; congruence.
  - destruct (waitGroup w) eqn:E; intros [= <- <-]. by apply step_server.
  - destruct (pc w) eqn:Epc, (signals w) as [|s rest] eqn:Es; try done.
    rewrite after_select_run. world_simpl. unfold close_chan.
    case_bool_decide as Hc; [destruct (shutdown w) eqn:Esh; [done|]|];
      intros [= <- <-].
    + rewrite (proj2 (ignored_terminating s) Hc). by apply step_signal.
    + rewrite <- ignored_terminating, not_false_iff_true in Hc. rewrite Hc.
      apply ignored_spec in Hc as [??]. by apply step_ignore.
  - destruct (pc w) eqn:Epc, (done w) eqn:Ed; try done.
    rewrite after_select_run. world_simpl. unfold close_chan.
    destruct (shutdown w) eqn:Esh; [done|]. simpl. intros [= <- <-].
    by apply step_done.
  - destruct (pc w) eqn:Epc, (waitGroup w) eqn:Ew; try done.
    intros [= <- <-]. by apply step_wait.
Qed.

Lemma step_act w a t w' : step w a t w' → act w a = Next w' t.
Proof.
  destruct 1 as [w s Hpc|w n Hn|w s rest Hpc Hs Hi Hk|w s rest Hpc Hs Ht Hsh|
                 w Hpc Hd Hsh|w Hpc Hw]; unfold act, server_exits.
  - destruct (pc w) eqn:E; try done. by destruct (Hpc code).
  - by rewrite Hn.
  - rewrite Hpc, Hs, after_select_run, bool_decide_false.
    + rewrite log_of_ignored; [done|]. by apply ignored_spec.
    + simpl. tauto.
  - rewrite Hpc, Hs, after_select_run, bool_decide_true by done. world_simpl.
    rewrite Hsh, log_of_exiting; [done|]. by apply ignored_terminating.
  - rewrite Hpc, Hd, after_select_run, bool_decide_true by done.
    rewrite Hsh. simpl. by rewrite Hd.
  - by rewrite Hpc, Hw.
Qed.

(** ** The invariant *)

Lemma world_inv_init servers : world_inv servers (world_init servers).
Proof.
  split; simpl; try done; [unfold signals_capacity; lia|].
  symmetry. apply bool_decide_eq_false. lia.
Qed.

Lemma world_inv_step servers w a t w' :
  world_inv servers w → step w a t w' → world_inv servers w'.
Proof.
  intros [Hcap Hsh Hst Hex Hsv Hd] Hstep.
  destruct Hstep as [w s Hpc|w n Hn|w s rest Hpc Hs Hi Hk|w s rest Hpc Hs Ht _|
                     w Hpc _ _|w Hpc Hw];
    split; simpl in *; try done; try lia.
  - by apply send_nonblocking_length.
  - intros code Hc. destruct (Hex code Hc). lia.
  - symmetry. apply bool_decide_eq_true. lia.
  - rewrite Hs in Hcap. simpl in Hcap. lia.
  - rewrite Hs in Hcap. simpl in Hcap. lia.
  - by rewrite Hsh, Hpc.
  - by intros code [= <-].
Qed.

Lemma reachable_inv servers w : reachable servers w → world_inv servers w.
Proof.
  induction 1; eauto using world_inv_init, world_inv_step.
Qed.

(** A schedule leads from reachable worlds to reachable worlds. *)
Lemma run_cons w a acts :
  run w (a :: acts) =
  match act w a with
  | Next w' t => '(w'', t') ← run w' acts; Some (w'', t ++ t')
  | _ => None
  end.
Proof. done. Qed.

Lemma run_cons_inv w a acts w'' t'' :
  run w (a :: acts) = Some (w'', t'') →
  ∃ w' t t', act w a = Next w' t ∧ run w' acts = Some (w'', t') ∧
             t'' = t ++ t'.
Proof.
  rewrite run_cons. destruct (act w a) as [| |w' t]; try done.
  destruct (run w' acts) as [[w3 t']|] eqn:E; [|done].
  intros [= <- <-]. eauto 6.
Qed.

Lemma run_reachable servers w acts w' t :
  reachable servers w → run w acts = Some (w', t) → reachable servers w'.
Proof.
  revert w t. induction acts as [|a acts IH]; intros w t Hw.
  - by intros [= <- <-].
  - intros (w1 & t1 & t2 & Hact & Hrun & _)%run_cons_inv.
    eapply IH; [|done]. eauto using reach_step, act_step.
Qed.

(** Once the loop is left the main goroutine is never in it again. *)
Lemma act_pc_left w a w' t :
  act w a = Next w' t → pc w ≠ PSelect → pc w' ≠ PSelect.
Proof. intros Hact%act_step. destruct Hact; simpl; congruence. Qed.

Lemma run_pc_left w acts w' t :
  run w acts = Some (w', t) → pc w ≠ PSelect → pc w' ≠ PSelect.
Proof.
  revert w t. induction acts as [|a acts IH]; intros w t.
  - by intros [= <- <-].
  - intros (w1 & t1 & t2 & Hact & Hrun & _)%run_cons_inv Hpc.
    eauto using act_pc_left.
Qed.

(** ** Facts on schedules *)

Lemma run_app w acts1 acts2 :
  run w (acts1 ++ acts2) =
  '(w1, t1) ← run w acts1; '(w2, t2) ← run w1 acts2; Some (w2, t1 ++ t2).
Proof.
  revert w. induction acts1 as [|a acts1 IH]; intros w.
  - simpl. by destruct (run w acts2) as [[??]|].
  - rewrite <- app_comm_cons, !run_cons.
    destruct (act w a) as [| |w' t]; try done. rewrite IH.
    destruct (run w' acts1) as [[w1 t1]|]; [|done]. simpl.
    destruct (run w1 acts2) as [[w2 t2]|]; [|done]. simpl.
    by rewrite app_assoc.
Qed.

(** While the buffer has room every signal delivered is kept, in order. *)
Lemma run_deliver w sigs :
  pc w = PSelect →
  length (signals w) + length sigs ≤ signals_capacity →
  run w (Deliver <$> sigs) = Some (set_signals (signals w ++ sigs) w, []).
Proof.
  revert w. induction sigs as [|s sigs IH]; intros [buf d sh n p]; world_simpl;
    intros -> Hlen.
  - by rewrite app_nil_r.
  - rewrite fmap_cons, run_cons. unfold act, send_nonblocking. world_simpl.
    simpl in Hlen. rewrite decide_True by lia.
    rewrite IH by (world_simpl; rewrite ?length_app; simpl; lia || done).
    world_simpl. by rewrite <- app_assoc.
Qed.

(** The main goroutine takes ignored signals one by one, oldest first. *)
Lemma run_drain w sigs rest :
  pc w = PSelect → signals w = sigs ++ rest →
  Forall (λ s, ignored s = true) sigs →
  run w (replicate (length sigs) SelectSignal) =
  Some (set_signals rest w, log_ignoring <$> sigs).
Proof.
  revert w. induction sigs as [|s sigs IH]; intros [buf d sh n p]; world_simpl;
    intros -> -> Hsigs; [done|].
  apply Forall_cons in Hsigs as [Hs Hsigs]. simpl replicate.
  rewrite run_cons. unfold act. simpl app. world_simpl.
  rewrite after_select_run, bool_decide_false, log_of_ignored by
    (done || by rewrite <- ignored_terminating, Hs).
  by rewrite IH.
Qed.

(** [close(shutdown)] is in the trace of a schedule once if the schedule
    takes the main goroutine out of the loop, and not otherwise. *)
Lemma act_close_count w a w' t :
  act w a = Next w' t →
  count is_close t =
  if bool_decide (pc w = PSelect ∧ pc w' ≠ PSelect) then 1 else 0.
Proof.
  intros Hact%act_step.
  destruct Hact; world_simpl; rewrite ?H; try done;
    case_bool_decide; naive_solver.
Qed.

Lemma run_close_count w acts w' t :
  run w acts = Some (w', t) →
  count is_close t =
  if bool_decide (pc w = PSelect ∧ pc w' ≠ PSelect) then 1 else 0.
Proof.
  revert w t. induction acts as [|a acts IH]; intros w t.
  - intros [= <- <-]. by rewrite bool_decide_false by naive_solver.
  - intros (w1 & t1 & t2 & Hact & Hrun & ->)%run_cons_inv.
    rewrite count_app, (act_close_count _ _ _ _ Hact), (IH _ _ Hrun).
    pose proof (act_pc_left _ _ _ _ Hact). pose proof (run_pc_left _ _ _ _ Hrun).
    repeat case_bool_decide; simpl; naive_solver.
Qed.

(** A move of the main goroutine is the move of the machine on the input
    it stands for; a move of another goroutine leaves the main one alone. *)
Lemma act_input `{ext : Externals} arguments w a w' t :
  act w a = Next w' t →
  match input_of w a with
  | Some i => proc_step arguments (pc w) i = Some (pc w', t)
  | None => pc w' = pc w ∧ t = []
  end.
Proof.
  intros Hact%act_step.
  destruct Hact as [w s Hpc|w n Hn|w s rest Hpc Hs Hi Hk|w s rest Hpc Hs Ht Hsh|
                    w Hpc Hd Hsh|w Hpc Hw]; cbn [input_of]; world_simpl;
    rewrite ?Hs, ?Hpc; try done; cbn [head mbind option_bind];
    rewrite ?proc_step_select.
  - rewrite bool_decide_false by (simpl; tauto).
    rewrite log_of_ignored; [done|]. by apply ignored_spec.
  - rewrite bool_decide_true by done.
    rewrite log_of_exiting; [done|]. by apply ignored_terminating.
Qed.

(** ** Properties *)

(** C28: the function [act] and the rules [step] describe the same moves
    of the main goroutine, the runtime and the servers. *)
Theorem act_iff_step w a w' t : act w a = Next w' t ↔ step w a t w'.
Proof. split; [apply act_step | apply step_act]. Qed.

(** C12: along every schedule from the world line 145 leaves, [signals]
    holds at most the 10 signals it has room for, [shutdown] is closed
    exactly when the main goroutine has left the loop, no more servers run
    than were started and [done] is ready exactly when one has exited. *)
Theorem schedule_keeps_invariant servers acts w t :
  run (world_init servers) acts = Some (w, t) → world_inv servers w.
Proof.
  intros Hrun. eapply reachable_inv, run_reachable; [apply reach_init|done].
Qed.

(** C5: no goroutine ever makes the process panic: [close(shutdown)] on
    line 161 is never reached with [shutdown] already closed, whatever
    signals are delivered and however often. *)
Theorem close_never_panics servers acts w t a :
  run (world_init servers) acts = Some (w, t) → act w a ≠ Panic.
Proof.
  intros Hrun. destruct (reachable_inv servers w) as [_ Hsh _ _ _ _];
    [by eapply run_reachable; [apply reach_init|]|].
  destruct a; unfold act, server_exits; repeat case_match; try done;
    rewrite after_select_run; unfold close_chan; world_simpl;
    rewrite Hsh, (bool_decide_false (PSelect ≠ PSelect)) by naive_solver;
    by destruct (bool_decide (terminating _)).
Qed.

(** C9: the process exits only with 0, only once every server has
    finished, and having closed [shutdown] exactly once. *)
Theorem exit_after_all_servers servers acts w t code :
  run (world_init servers) acts = Some (w, t) →
  pc w = PExited code →
  code = 0%Z ∧ waitGroup w = 0 ∧ shutdown w = true ∧ count is_close t = 1.
Proof.
  intros Hrun Hpc.
  destruct (reachable_inv servers w) as [_ Hsh _ Hex _ _];
    [by eapply run_reachable; [apply reach_init|]|].
  destruct (Hex code Hpc) as [-> Hw]. rewrite Hsh, Hpc.
  rewrite (run_close_count _ _ _ _ Hrun), Hpc. by split_and!.
Qed.

(** C7: a schedule of the goroutines is a run of the machine of
    [Gungnir]: the main goroutine's moves are the inputs, the events are
    the same, and the other goroutines' moves are not seen. *)
Theorem world_refines_machine `{ext : Externals} arguments w acts w' t :
  run w acts = Some (w', t) →
  proc_run arguments (pc w) (inputs_along w acts) = (pc w', t).
Proof.
  revert w t. induction acts as [|a acts IH]; intros w t.
  - by intros [= <- <-].
  - intros (w1 & t1 & t2 & Hact & Hrun & ->)%run_cons_inv.
    cbn [inputs_along]. rewrite Hact.
    pose proof (act_input arguments _ _ _ _ Hact) as Hin.
    destruct (input_of w a) as [i|]; cbn [option_list option_rect app].
    + by rewrite proc_run_cons, Hin, (IH _ _ Hrun).
    + destruct Hin as [<- ->]. by rewrite (IH _ _ Hrun).
Qed.

(** C13: a signal delivered while [signals] holds 10 signals is lost.
    After 10 ignored signals that the main goroutine has not yet taken, an
    interrupt changes nothing: once the 10 are logged the process is where
    it was before any of them, still running. *)
Theorem interrupt_lost_when_full servers sigs :
  length sigs = signals_capacity →
  Forall (λ s, ignored s = true) sigs →
  run (world_init servers)
      ((Deliver <$> sigs) ++ [Deliver os_Interrupt] ++
       replicate signals_capacity SelectSignal) =
  Some (world_init servers, log_ignoring <$> sigs).
Proof.
  intros Hlen Hsigs.
  unfold world_init. rewrite run_app, run_deliver by (simpl; lia || done).
  cbn [mbind option_bind app]. world_simpl.
  rewrite run_cons. unfold act, send_nonblocking. world_simpl. cbn [app].
  rewrite decide_False by lia. cbn [mbind option_bind].
  rewrite <- Hlen, (run_drain _ sigs []) by (by rewrite ?app_nil_r). done.
Qed.

(** C14: signals are served in the order they arrived, so an interrupt or
    kill that is in [signals] behind [n] other signals has ended the loop
    once the main goroutine has taken [n + 1] cases, whatever else happens
    meanwhile. *)
Theorem pending_interrupt_handled w acts w' t pre s post :
  run w acts = Some (w', t) →
  signals w = pre ++ s :: post →
  ignored s = false →
  length pre < count (λ a, a = SelectSignal) acts →
  pc w' ≠ PSelect.
Proof.
  revert w t pre post.
  induction acts as [|a acts IH]; intros w t pre post;
    [intros _ _ _ Hn; rewrite count_nil in Hn; lia|].
  intros (w1 & t1 & t2 & Hact & Hrun & ->)%run_cons_inv Hsig Hs Hn.
  destruct (decide (pc w1 = PSelect)) as [Hpc|]; [|by eapply run_pc_left].
  rewrite count_cons in Hn. apply act_step in Hact.
  destruct Hact as [w s' _|w n _|w s' rest _ Hs' Hi Hk|w s' rest| |];
    try done; world_simpl; rewrite ?decide_False in Hn by done.
  - destruct (send_nonblocking_spec s' (signals w)) as [[_ E]|[_ E]];
      (eapply IH; [exact Hrun| |done..]); world_simpl;
      rewrite E, Hsig, <- ?app_assoc; done.
  - eapply IH; [exact Hrun|exact Hsig|done..].
  - rewrite decide_True in Hn by done. rewrite Hsig in Hs'.
    destruct pre as [|s'' pre]; simplify_eq/=.
    + assert (ignored s' = true) by by apply ignored_spec. congruence.
    + eapply (IH _ _ pre post); [exact Hrun|done..|lia].
Qed.

(** C17: once [shutdown] is closed and the main goroutine waits, the
    process exits with 0 as soon as the servers still running have
    returned: [Wait] returns, and nothing is logged any more. *)
Theorem shutdown_completes w :
  pc w = PWait →
  ∃ w', run w (replicate (waitGroup w) ServerExits ++ [WaitReturns]) =
          Some (w', []) ∧
        pc w' = PExited 0 ∧ waitGroup w' = 0 ∧ signals w' = signals w.
Proof.
  destruct w as [buf d sh n p]. world_simpl. intros ->. revert d.
  induction n as [|n IH]; intros d; [by eexists|].
  destruct (IH true) as (w' & Hrun & ?). exists w'. split; [|done].
  simpl replicate. rewrite <- app_comm_cons, run_cons. unfold act, server_exits.
  world_simpl. by rewrite Hrun.
Qed.

(** ** Witnesses *)

(** Two servers.  A hang-up and an interrupt arrive; the main goroutine
    logs the hang-up, a server exits by itself, the interrupt ends the
    loop; a kill arrives too late to be received, the other server
    returns, and [Wait] returns. *)
Definition demo_schedule : list Action :=
  [Deliver syscall_SIGHUP; Deliver os_Interrupt; SelectSignal; ServerExits;
   SelectSignal; Deliver os_Kill; ServerExits; WaitReturns].

Definition demo_world : World := MkWorld [os_Kill] true true 0 (PExited 0).

Definition demo_events : list Event :=
  [log_ignoring syscall_SIGHUP; log_exiting os_Interrupt;
   Called CloseShutdown; Called Wait].

Lemma schedule_keeps_invariant_witness : world_inv 2 demo_world.
Proof.
  by apply (schedule_keeps_invariant 2 demo_schedule demo_world demo_events).
Defined.

Lemma close_never_panics_witness :
  signals (MkWorld [os_Interrupt] false true 1 PWait) = [os_Interrupt] ∧
  act (MkWorld [os_Interrupt] false true 1 PWait) SelectSignal ≠ Panic.
Proof.
  split; [done|].
  by apply (close_never_panics 1
              [Deliver os_Kill; Deliver os_Interrupt; SelectSignal]
              (MkWorld [os_Interrupt] false true 1 PWait)
              [log_exiting os_Kill; Called CloseShutdown; Called Wait]).
Defined.

Lemma exit_after_all_servers_witness :
  0%Z = 0%Z ∧ waitGroup demo_world = 0 ∧ shutdown demo_world = true ∧
  count is_close demo_events = 1.
Proof.
  by apply (exit_after_all_servers 2 demo_schedule demo_world demo_events 0).
Defined.

Lemma world_refines_machine_witness :
  let ext := demo_env true true in
  proc_run demo_args PSelect
    [Select (RecvSignal syscall_SIGHUP); Select (RecvSignal os_Interrupt);
     WaitDone] = (PExited 0, demo_events).
Proof.
  intros ext.
  by apply (world_refines_machine (ext := ext) demo_args (world_init 2)
              demo_schedule demo_world demo_events).
Defined.

Lemma interrupt_lost_when_full_witness :
  run (world_init 1)
      ((Deliver <$> replicate 10 syscall_SIGHUP) ++ [Deliver os_Interrupt] ++
       replicate signals_capacity SelectSignal) =
  Some (world_init 1, log_ignoring <$> replicate 10 syscall_SIGHUP).
Proof.
  apply (interrupt_lost_when_full 1 (replicate 10 syscall_SIGHUP));
    [reflexivity|]. by apply Forall_replicate.
Defined.

Lemma pending_interrupt_handled_witness :
  signals (MkWorld [syscall_SIGHUP; os_Kill] false false 1 PSelect) =
    [syscall_SIGHUP] ++ os_Kill :: [] ∧
  pc (MkWorld [syscall_SIGTERM] false true 1 PWait) ≠ PSelect.
Proof.
  split; [done|].
  by apply (pending_interrupt_handled
              (MkWorld [syscall_SIGHUP; os_Kill] false false 1 PSelect)
              [SelectSignal; Deliver syscall_SIGTERM; SelectSignal]
              (MkWorld [syscall_SIGTERM] false true 1 PWait)
              [log_ignoring syscall_SIGHUP; log_exiting os_Kill;
               Called CloseShutdown; Called Wait]
              [syscall_SIGHUP] os_Kill []);
    [reflexivity..|vm_compute; lia].
Defined.

Lemma shutdown_completes_witness :
  ∃ w', run (MkWorld [os_Kill] true true 2 PWait)
            (replicate 2 ServerExits ++ [WaitReturns]) = Some (w', []) ∧
        pc w' = PExited 0 ∧ waitGroup w' = 0 ∧ signals w' = [os_Kill].
Proof. by apply (shutdown_completes (MkWorld [os_Kill] true true 2 PWait)). Defined.
